(** * Apples and Pears: the tic-tac-toe state machine and its greedy opponent

    A shallow embedding of [main.go]: the board, the per-frame [Update]
    step, [makeAIMove], [Reset], [checkWin] and [checkDraw], followed by the
    properties of the game core.  Rendering, asset loading and the window
    are not modelled. *)

From Stdlib Require Import String List Bool Arith ZArith Lia Sorted.
Import ListNotations.

(** ** Data model *)

(** [type Cell int] with [Empty], [X], [O] declared by [iota]. *)
Inductive Cell : Type := Empty | X | O.

(** [type GameState int] with [Playing], [XWins], [OWins], [Draw]. *)
Inductive GameState : Type := Playing | XWins | OWins | Draw.

Definition cell_eqb (a b : Cell) : bool :=
  match a, b with
  | Empty, Empty | X, X | O, O => true
  | _, _ => false
  end.

Definition state_eqb (a b : GameState) : bool :=
  match a, b with
  | Playing, Playing | XWins, XWins | OWins, OWins | Draw, Draw => true
  | _, _ => false
  end.

(** The constants of the source.  [BoardSize] indexes the board (a [nat]
    here); pixel coordinates are Go [int]s, modelled in [Z]. *)
Definition ScreenWidth : Z := 600.
Definition ScreenHeight : Z := 600.
Definition BoardSize : nat := 3.
Definition CellSize : Z := Z.quot ScreenWidth (Z.of_nat BoardSize).

(** A Go array of length three, [[3]A].  Go panics on an index outside
    [0..2]; every index the program uses is a constant, a loop counter
    bounded by [BoardSize], or guarded by the range test of [Update], so the
    last clause of [idx3] and of [upd3] is never reached by the code. *)
Record Arr3 (A : Type) : Type := mkArr3 { e0 : A; e1 : A; e2 : A }.

Arguments mkArr3 {A} _ _ _.
Arguments e0 {A} _.
Arguments e1 {A} _.
Arguments e2 {A} _.

Definition idx3 {A} (a : Arr3 A) (i : nat) : A :=
  match i with
  | 0 => e0 a
  | 1 => e1 a
  | _ => e2 a
  end.

Definition upd3 {A} (a : Arr3 A) (i : nat) (v : A) : Arr3 A :=
  match i with
  | 0 => mkArr3 v (e1 a) (e2 a)
  | 1 => mkArr3 (e0 a) v (e2 a)
  | 2 => mkArr3 (e0 a) (e1 a) v
  | _ => a
  end.

(** [board [BoardSize][BoardSize]Cell], row-major. *)
Definition Board : Type := Arr3 (Arr3 Cell).

(** [g.board[row][col]] *)
Definition get (b : Board) (row col : nat) : Cell := idx3 (idx3 b row) col.

(** [g.board[row][col] = v] *)
Definition set (b : Board) (row col : nat) (v : Cell) : Board :=
  upd3 b row (upd3 (idx3 b row) col v).

Definition emptyRow : Arr3 Cell := mkArr3 Empty Empty Empty.
Definition emptyBoard : Board := mkArr3 emptyRow emptyRow emptyRow.

(** [type Game struct].  [aiDelay] is a Go [int]; it only ever holds values
    between 0 and 30, so no wrap-around is involved. *)
Record Game : Type := mkGame {
  board : Board;
  currentTurn : Cell;
  state : GameState;
  aiDelay : Z
}.

(** [NewGame]: the zero board, [currentTurn: X], [state: Playing], and the
    zero value of [aiDelay]. *)
Definition NewGame : Game := mkGame emptyBoard X Playing 0.

(** What one frame reads from outside the game: the click edge
    ([inpututil.IsMouseButtonJustPressed]), the cursor position
    ([ebiten.CursorPosition]) and the raw value the global generator [rng]
    would hand out on this frame. *)
Record Input : Type := mkInput {
  justPressed : bool;
  cursorX : Z;
  cursorY : Z;
  rngRaw : nat
}.

(** [rng.Intn(n)] for [n > 0]: some number in [[0, n)].  The draw is the
    frame's raw value reduced modulo [n]; letting the raw value range over
    all naturals yields every number below [n] and nothing else. *)
Definition Intn (raw n : nat) : nat := raw mod n.

(** ** Queries *)

(** The test shared by the four checks of [checkWin]:
    [p != Empty && p == q && q == r]. *)
Definition line3 (p q r : Cell) : bool :=
  negb (cell_eqb p Empty) && cell_eqb p q && cell_eqb q r.

(** [func (g *Game) checkWin() bool].  It takes no mark. *)
Definition checkWin (b : Board) : bool :=
  if existsb (fun row => line3 (get b row 0) (get b row 1) (get b row 2))
             (seq 0 BoardSize) then true
  else if existsb (fun col => line3 (get b 0 col) (get b 1 col) (get b 2 col))
                  (seq 0 BoardSize) then true
  else if line3 (get b 0 0) (get b 1 1) (get b 2 2) then true
  else if line3 (get b 0 2) (get b 1 1) (get b 2 0) then true
  else false.

(** [func (g *Game) checkDraw() bool]: [false] at the first [Empty] cell. *)
Definition checkDraw (b : Board) : bool :=
  forallb (fun row =>
    forallb (fun col => negb (cell_eqb (get b row col) Empty)) (seq 0 BoardSize))
    (seq 0 BoardSize).

(** ** Mutations *)

(** The cells in the order of the nested loops
    [for row := 0; row < BoardSize; row++ { for col := 0; col < BoardSize; col++ ]. *)
Definition cells : list (nat * nat) :=
  flat_map (fun row => map (fun col => (row, col)) (seq 0 BoardSize))
           (seq 0 BoardSize).

(** [func (g *Game) Reset()], the board part: every cell is assigned
    [Empty]. *)
Definition clearBoard (b : Board) : Board :=
  fold_left (fun acc rc => set acc (fst rc) (snd rc) Empty) cells b.

Definition Reset (g : Game) : Game :=
  mkGame (clearBoard (board g)) X Playing 0.

(** The first loop of [makeAIMove] over the cells still to visit.  The
    board is threaded through: an empty cell receives [O]; when [checkWin]
    then holds the function returns with that board ([true]), otherwise the
    cell is set back to [Empty] and the scan goes on.  [false] means the
    loop ran to its end. *)
Fixpoint winScan (todo : list (nat * nat)) (b : Board) : Board * bool :=
  match todo with
  | [] => (b, false)
  | (row, col) :: rest =>
      if cell_eqb (get b row col) Empty then
        let b1 := set b row col O in
        if checkWin b1 then (b1, true)
        else winScan rest (set b1 row col Empty)
      else winScan rest b
  end.

(** [emptyCells]: the empty cells appended in loop order. *)
Definition emptyCells (b : Board) : list (nat * nat) :=
  filter (fun rc => cell_eqb (get b (fst rc) (snd rc)) Empty) cells.

(** [func (g *Game) makeAIMove()]. *)
Definition makeAIMove (raw : nat) (b : Board) : Board :=
  let (b1, returned) := winScan cells b in
  if returned then b1
  else if cell_eqb (get b1 1 1) Empty then set b1 1 1 O
  else
    let ec := emptyCells b1 in
    if 0 <? length ec then
      let randomCell := nth (Intn raw (length ec)) ec (0, 0) in
      set b1 (fst randomCell) (snd randomCell) O
    else b1.

(** The body of the click branch of [Update] once [row] and [col] are
    known: the guarded placement of [g.currentTurn] and the evaluation of
    the outcome. *)
Definition humanMove (row col : Z) (g : Game) : Game :=
  if (row >=? 0)%Z && (row <? Z.of_nat BoardSize)%Z
     && (col >=? 0)%Z && (col <? Z.of_nat BoardSize)%Z
     && cell_eqb (get (board g) (Z.to_nat row) (Z.to_nat col)) Empty
  then
    let b1 := set (board g) (Z.to_nat row) (Z.to_nat col) (currentTurn g) in
    if checkWin b1 then mkGame b1 (currentTurn g) XWins (aiDelay g)
    else if checkDraw b1 then mkGame b1 (currentTurn g) Draw (aiDelay g)
    else mkGame b1 O (state g) 30
  else g.

(** The [else] branch of [Update] (the AI's turn). *)
Definition aiTurn (raw : nat) (g : Game) : Game :=
  if (aiDelay g >? 0)%Z then
    mkGame (board g) (currentTurn g) (state g) (aiDelay g - 1)
  else
    let b1 := makeAIMove raw (board g) in
    if checkWin b1 then mkGame b1 (currentTurn g) OWins (aiDelay g)
    else if checkDraw b1 then mkGame b1 (currentTurn g) Draw (aiDelay g)
    else mkGame b1 X (state g) (aiDelay g).

(** [func (g *Game) Update() error]; the error is always [nil].  Go's [/]
    on [int] truncates toward zero, which is [Z.quot]. *)
Definition Update (inp : Input) (g : Game) : Game :=
  if negb (state_eqb (state g) Playing) then
    if justPressed inp then Reset g else g
  else if cell_eqb (currentTurn g) X then
    if justPressed inp then
      let x := cursorX inp in
      let y := cursorY inp in
      let row := Z.quot y CellSize in
      let col := Z.quot x CellSize in
      humanMove row col g
    else g
  else aiTurn (rngRaw inp) g.

(** ** Vocabulary of the specification *)

(** A cell of the 3x3 board. *)
Definition onBoard (row col : nat) : Prop := row < BoardSize /\ col < BoardSize.

(** Some row, some column or one of the two diagonals is entirely [m]. *)
Definition has_line (b : Board) (m : Cell) : Prop :=
  (exists row, row < BoardSize /\
      forall col, col < BoardSize -> get b row col = m) \/
  (exists col, col < BoardSize /\
      forall row, row < BoardSize -> get b row col = m) \/
  (forall i, i < BoardSize -> get b i i = m) \/
  (forall i, i < BoardSize -> get b i (BoardSize - 1 - i) = m).

(** The same, as a test that can be run. *)
Definition has_lineb (b : Board) (m : Cell) : bool :=
  existsb (fun row =>
      forallb (fun col => cell_eqb (get b row col) m) (seq 0 BoardSize))
    (seq 0 BoardSize)
  || existsb (fun col =>
      forallb (fun row => cell_eqb (get b row col) m) (seq 0 BoardSize))
    (seq 0 BoardSize)
  || forallb (fun i => cell_eqb (get b i i) m) (seq 0 BoardSize)
  || forallb (fun i => cell_eqb (get b i (BoardSize - 1 - i)) m) (seq 0 BoardSize).

(** No cell of the board is [Empty]. *)
Definition full (b : Board) : Prop :=
  forall row col, onBoard row col -> get b row col <> Empty.

(** Filling the empty cell [(row, col)] with the AI's mark [O] leaves a row,
    column or diagonal entirely [O]. *)
Definition completes (b : Board) (row col : nat) : Prop :=
  onBoard row col /\ get b row col = Empty /\ has_line (set b row col O) O.

Definition completesb (b : Board) (rc : nat * nat) : bool :=
  cell_eqb (get b (fst rc) (snd rc)) Empty
  && has_lineb (set b (fst rc) (snd rc) O) O.

(** Row-major scan order on cells. *)
Definition before (p q : nat * nat) : Prop :=
  fst p < fst q \/ (fst p = fst q /\ snd p < snd q).

(** The number of cells of the board holding [m]. *)
Definition holds (m c : Cell) : nat := if cell_eqb c m then 1 else 0.

Definition count (m : Cell) (b : Board) : nat :=
  list_sum (map (fun rc => holds m (get b (fst rc) (snd rc))) cells).

Arguments holds : simpl never.

(** The other player's mark. *)
Definition opponent (m : Cell) : Cell :=
  match m with
  | X => O
  | O => X
  | Empty => Empty
  end.

(** The outcomes that end a game. *)
Definition terminal (s : GameState) : Prop := s = XWins \/ s = OWins \/ s = Draw.

(** The states a play session can be in: the initial state, and whatever
    frames ([Update]) and resets lead to from there. *)
Inductive reachable : Game -> Prop :=
| reach_new : reachable NewGame
| reach_update : forall inp g, reachable g -> reachable (Update inp g)
| reach_reset : forall g, reachable g -> reachable (Reset g).

(** What the AI scan tests at a cell: it is empty and [checkWin] holds once
    [O] is placed there. *)
Definition scanHit (b : Board) (rc : nat * nat) : bool :=
  cell_eqb (get b (fst rc) (snd rc)) Empty
  && checkWin (set b (fst rc) (snd rc) O).

(** ** Example boards *)

Definition rowXXX : Arr3 Cell := mkArr3 X X X.
Definition rowOOE : Arr3 Cell := mkArr3 O O Empty.

(** Row 0 is X X X, everything else is empty. *)
Definition boardXtop : Board := mkArr3 rowXXX emptyRow emptyRow.
(** Row 0 is X X X, row 1 is empty, row 2 is O O Empty. *)
Definition boardXtopOO : Board := mkArr3 rowXXX emptyRow rowOOE.
(** Row 0 is O O Empty, everything else is empty. *)
Definition boardOO : Board := mkArr3 rowOOE emptyRow emptyRow.

(** Board with [X] on the center only. *)
Definition boardXcenter : Board :=
  mkArr3 emptyRow (mkArr3 Empty X Empty) emptyRow.

(** A game in which the human has taken the corner (0,0) and the AI the
    center; it is the human's turn. *)
Definition gameTwoMoves : Game :=
  mkGame (mkArr3 (mkArr3 X Empty Empty) (mkArr3 Empty O Empty) emptyRow)
         X Playing 0.

(** A game the human has won with row 0. *)
Definition gameXWon : Game :=
  mkGame (mkArr3 rowXXX (mkArr3 O O Empty) emptyRow) X XWins 0.

(** A game in which the human has taken (0,0); the AI is about to move. *)
Definition gameOneMove : Game :=
  mkGame (mkArr3 (mkArr3 X Empty Empty) emptyRow emptyRow) O Playing 0.

(** A game with one empty cell left, (2,2), and the human to move. *)
Definition gameLastCell : Game :=
  mkGame (mkArr3 (mkArr3 X O X) (mkArr3 X O O) (mkArr3 O X Empty))
         X Playing 0.

(** ** The invariant of a play session *)

(** While the game is on, nobody owns a line; on the human's turn the two
    marks are level, on the AI's turn [X] is one ahead and a cell is free.
    Once the game is over the counts differ by at most one. *)
Definition session_inv (g : Game) : Prop :=
  match state g with
  | Playing =>
      checkWin (board g) = false /\
      ((currentTurn g = X /\ count X (board g) = count O (board g)) \/
       (currentTurn g = O /\ count X (board g) = count O (board g) + 1 /\
        checkDraw (board g) = false))
  | _ =>
      count O (board g) <= count X (board g) <= count O (board g) + 1
  end.

(** ** The frame loop and the status line *)

(** The engine ([ebiten.RunGame]) calls [Update] once per frame; [frames]
    runs the frames of a list of inputs, oldest first. *)
Definition frames (inps : list Input) (g : Game) : Game :=
  fold_left (fun acc inp => Update inp acc) inps g.

(** The corner of the square in which [Draw] puts the piece of a cell:
    [x := col * CellSize] and [y := row * CellSize], computed on [int]s
    before the conversion to [float64]. *)
Definition cellX (col : nat) : Z := Z.of_nat col * CellSize.
Definition cellY (row : nat) : Z := Z.of_nat row * CellSize.

(** The [switch g.state] that closes [Draw]: the text of the status line. *)
Definition statusText (g : Game) : string :=
  match state g with
  | Playing =>
      if cell_eqb (currentTurn g) O then "Pear's turn"%string
      else "Apple's turn"%string
  | XWins => "Apple wins! Click to play again"%string
  | OWins => "Pear wins! Click to play again"%string
  | Draw => "Draw! Click to play again"%string
  end.

(** What the frames of a session keep true besides the balance of the
    marks: the turn is a player's, the pause counter stays within
    [0, 30] and is zero except while the AI waits, and the outcome is the
    one the board shows. *)
Definition outcome_inv (g : Game) : Prop :=
  (currentTurn g = X \/ currentTurn g = O) /\
  (0 <= aiDelay g <= 30)%Z /\
  match state g with
  | Playing =>
      ~ has_line (board g) X /\ ~ has_line (board g) O /\
      checkDraw (board g) = false /\
      (currentTurn g = X -> aiDelay g = 0%Z)
  | XWins =>
      has_line (board g) X /\ ~ has_line (board g) O /\
      currentTurn g = X /\ aiDelay g = 0%Z
  | OWins =>
      has_line (board g) O /\ ~ has_line (board g) X /\
      currentTurn g = O /\ aiDelay g = 0%Z
  | Draw =>
      full (board g) /\ ~ has_line (board g) X /\ ~ has_line (board g) O /\
      aiDelay g = 0%Z
  end.

(** ** Example sessions *)

(** Frames for the examples: a frame without a click whose raw random
    value is [raw], and a frame with a click at pixel [(x, y)]. *)
Definition noClick (raw : nat) : Input := mkInput false 0 0 raw.
Definition clickAt (x y : Z) : Input := mkInput true x y 0.

(** A session: the human takes (0,0), the AI answers after its pause, the
    human takes (0,1), the AI answers (raw value 1), the human takes (2,2),
    and the AI's pause of 30 frames elapses. *)
Definition sessionAICanWin : list Input :=
  [clickAt 50 50] ++ repeat (noClick 0) 31 ++
  [clickAt 250 50] ++ repeat (noClick 1) 31 ++
  [clickAt 500 500] ++ repeat (noClick 0) 30.

Definition gameAICanWin : Game := frames sessionAICanWin NewGame.

(** ** Basic facts *)

Lemma cell_eqb_eq (a b : Cell) : cell_eqb a b = true <-> a = b.
Proof. destruct a, b; simpl; split; intro H; try reflexivity; discriminate. Qed.

Lemma cell_eqb_neq (a b : Cell) : cell_eqb a b = false <-> a <> b.
Proof.
  destruct a, b; simpl; split; intro H; try reflexivity;
    try discriminate; try congruence.
Qed.

Lemma cell_eqb_refl (a : Cell) : cell_eqb a a = true.
Proof. destruct a; reflexivity. Qed.

Lemma state_eqb_eq (a b : GameState) : state_eqb a b = true <-> a = b.
Proof. destruct a, b; simpl; split; intro H; try reflexivity; discriminate. Qed.

Lemma lt3_cases (i : nat) : i < BoardSize -> i = 0 \/ i = 1 \/ i = 2.
Proof. unfold BoardSize; lia. Qed.

(** Splits a bounded index into its three values. *)
Ltac index3 H :=
  apply lt3_cases in H; destruct H as [H | [H | H]]; subst.

Lemma in_cells (row col : nat) : In (row, col) cells <-> onBoard row col.
Proof.
  unfold cells, onBoard. rewrite in_flat_map. split.
  - intros [r [Hr Hin]]. apply in_map_iff in Hin.
    destruct Hin as [c [Heq Hc]]. inversion Heq; subst.
    apply in_seq in Hr. apply in_seq in Hc. lia.
  - intros [Hr Hc]. exists row. split.
    + apply in_seq. lia.
    + apply in_map_iff. exists col. split; [reflexivity | apply in_seq; lia].
Qed.

Lemma get_set_same (b : Board) (row col : nat) (v : Cell) :
  onBoard row col -> get (set b row col v) row col = v.
Proof.
  intros [Hr Hc]. index3 Hr; index3 Hc; reflexivity.
Qed.

Lemma get_set_other (b : Board) (row col row' col' : nat) (v : Cell) :
  onBoard row col -> onBoard row' col' -> (row', col') <> (row, col) ->
  get (set b row col v) row' col' = get b row' col'.
Proof.
  intros [Hr Hc] [Hr' Hc'] Hne.
  index3 Hr; index3 Hc; index3 Hr'; index3 Hc';
    try reflexivity; exfalso; apply Hne; reflexivity.
Qed.

Lemma set_set (b : Board) (row col : nat) (v w : Cell) :
  onBoard row col -> set (set b row col v) row col w = set b row col w.
Proof.
  intros [Hr Hc]. index3 Hr; index3 Hc; reflexivity.
Qed.

Lemma set_get (b : Board) (row col : nat) :
  onBoard row col -> set b row col (get b row col) = b.
Proof.
  intros [Hr Hc]. destruct b as [[a00 a01 a02] [a10 a11 a12] [a20 a21 a22]].
  index3 Hr; index3 Hc; reflexivity.
Qed.

(** Placing a mark on an empty cell and setting the cell back to [Empty]
    restores the board. *)
Lemma set_undo (b : Board) (row col : nat) (v : Cell) :
  onBoard row col -> get b row col = Empty ->
  set (set b row col v) row col Empty = b.
Proof.
  intros Hon He. rewrite set_set by assumption.
  rewrite <- He. apply set_get; assumption.
Qed.

(** ** Lines *)

Lemma line3_true (p q r : Cell) :
  line3 p q r = true <-> p <> Empty /\ p = q /\ q = r.
Proof.
  unfold line3. rewrite !andb_true_iff, negb_true_iff.
  rewrite cell_eqb_neq, !cell_eqb_eq. tauto.
Qed.

Lemma forallb_seq3 (f : nat -> bool) :
  forallb f (seq 0 BoardSize) = true <-> forall i, i < BoardSize -> f i = true.
Proof.
  rewrite forallb_forall. split; intros H i Hi; apply H.
  - apply in_seq. lia.
  - apply in_seq in Hi. lia.
Qed.

Lemma existsb_seq3 (f : nat -> bool) :
  existsb f (seq 0 BoardSize) = true <-> exists i, i < BoardSize /\ f i = true.
Proof.
  rewrite existsb_exists. split; intros [i [Hi Hf]]; exists i; split; trivial.
  - apply in_seq in Hi. lia.
  - apply in_seq. lia.
Qed.

Lemma has_lineP (b : Board) (m : Cell) :
  has_line b m <-> has_lineb b m = true.
Proof.
  unfold has_line, has_lineb.
  rewrite !orb_true_iff, !existsb_seq3, !forallb_seq3.
  assert (Hex : forall (P Q : nat -> Prop),
             (forall i, P i <-> Q i) -> (exists i, P i) <-> (exists i, Q i)).
  { intros P Q HPQ. split; intros [i Hi]; exists i; apply HPQ; exact Hi. }
  assert (Hrow : (exists row, row < BoardSize /\
                    forall col, col < BoardSize -> get b row col = m) <->
                 (exists i, i < BoardSize /\
                    forallb (fun col => cell_eqb (get b i col) m)
                            (seq 0 BoardSize) = true)).
  { apply Hex. intro i. rewrite forallb_seq3.
    split; intros [Hi H]; split; trivial; intros c Hc;
      apply cell_eqb_eq; apply H; exact Hc. }
  assert (Hcol : (exists col, col < BoardSize /\
                    forall row, row < BoardSize -> get b row col = m) <->
                 (exists i, i < BoardSize /\
                    forallb (fun row => cell_eqb (get b row i) m)
                            (seq 0 BoardSize) = true)).
  { apply Hex. intro i. rewrite forallb_seq3.
    split; intros [Hi H]; split; trivial; intros c Hc;
      apply cell_eqb_eq; apply H; exact Hc. }
  assert (Hd1 : (forall i, i < BoardSize -> get b i i = m) <->
                (forall i, i < BoardSize -> cell_eqb (get b i i) m = true)).
  { split; intros H i Hi; apply cell_eqb_eq; apply H; exact Hi. }
  assert (Hd2 : (forall i, i < BoardSize -> get b i (BoardSize - 1 - i) = m) <->
                (forall i, i < BoardSize ->
                   cell_eqb (get b i (BoardSize - 1 - i)) m = true)).
  { split; intros H i Hi; apply cell_eqb_eq; apply H; exact Hi. }
  tauto.
Qed.

(** [checkWin] as the disjunction of its four checks. *)
Lemma checkWin_orb (b : Board) :
  checkWin b =
  existsb (fun row => line3 (get b row 0) (get b row 1) (get b row 2))
          (seq 0 BoardSize)
  || existsb (fun col => line3 (get b 0 col) (get b 1 col) (get b 2 col))
             (seq 0 BoardSize)
  || line3 (get b 0 0) (get b 1 1) (get b 2 2)
  || line3 (get b 0 2) (get b 1 1) (get b 2 0).
Proof.
  unfold checkWin.
  destruct (existsb _ _); [reflexivity |].
  destruct (existsb _ _); [reflexivity |].
  destruct (line3 _ _ _); [reflexivity |].
  destruct (line3 _ _ _); reflexivity.
Qed.

(** [checkWin] holds exactly when one of the two marks owns a line. *)
Lemma checkWin_lines (b : Board) :
  checkWin b = true <-> has_line b X \/ has_line b O.
Proof.
  rewrite checkWin_orb, !orb_true_iff, !existsb_seq3. split.
  - assert (Hm : forall m, m <> Empty -> has_line b m ->
                           has_line b X \/ has_line b O).
    { intros [| |] Hne Hl; [congruence | left | right]; exact Hl. }
    intros [[[[r [Hr Hl]] | [c [Hc Hl]]] | Hl] | Hl];
      apply line3_true in Hl; destruct Hl as [Hne [H1 H2]].
    + apply (Hm (get b r 0) Hne). left. exists r. split; trivial.
      intros c Hc. index3 Hc; congruence.
    + apply (Hm (get b 0 c) Hne). right; left. exists c. split; trivial.
      intros r Hr. index3 Hr; congruence.
    + apply (Hm (get b 0 0) Hne). right; right; left.
      intros i Hi. index3 Hi; congruence.
    + apply (Hm (get b 0 2) Hne). right; right; right.
      intros i Hi. index3 Hi; unfold BoardSize; simpl Nat.sub; congruence.
  - assert (Hl3 : forall m p q r, m <> Empty -> p = m -> q = m -> r = m ->
                                  line3 p q r = true).
    { intros m p q r Hne -> -> ->. apply line3_true. auto. }
    assert (Hm : forall m, m <> Empty -> has_line b m ->
      (((exists i, i < BoardSize /\
           line3 (get b i 0) (get b i 1) (get b i 2) = true) \/
        (exists i, i < BoardSize /\
           line3 (get b 0 i) (get b 1 i) (get b 2 i) = true)) \/
       line3 (get b 0 0) (get b 1 1) (get b 2 2) = true) \/
      line3 (get b 0 2) (get b 1 1) (get b 2 0) = true).
    { intros m Hne [[r [Hr H]] | [[c [Hc H]] | [H | H]]].
      - left; left; left. exists r. split; trivial.
        apply (Hl3 m); trivial; apply H; unfold BoardSize; lia.
      - left; left; right. exists c. split; trivial.
        apply (Hl3 m); trivial; apply H; unfold BoardSize; lia.
      - left; right.
        apply (Hl3 m); trivial; apply H; unfold BoardSize; lia.
      - right.
        apply (Hl3 m); trivial.
        + apply (H 0); unfold BoardSize; lia.
        + apply (H 1); unfold BoardSize; lia.
        + apply (H 2); unfold BoardSize; lia. }
    intros [H | H]; (eapply Hm; [| exact H]); discriminate.
Qed.

Lemma checkWin_false_lines (b : Board) :
  checkWin b = false <-> ~ has_line b X /\ ~ has_line b O.
Proof.
  rewrite <- not_true_iff_false, checkWin_lines. tauto.
Qed.

(** A line of [m] that exists after a cell was overwritten with another
    value was there before. *)
Lemma has_line_set_other (b : Board) (row col : nat) (v m : Cell) :
  onBoard row col -> v <> m ->
  has_line (set b row col v) m -> has_line b m.
Proof.
  intros Hon Hvm.
  assert (Hcell : forall r c, onBoard r c ->
                    get (set b row col v) r c = m -> get b r c = m).
  { intros r c Hrc Hg.
    destruct (Nat.eq_dec r row) as [-> | Hr];
      [destruct (Nat.eq_dec c col) as [-> | Hc] |].
    - rewrite get_set_same in Hg by assumption. contradiction.
    - rewrite get_set_other in Hg by (trivial; congruence). exact Hg.
    - rewrite get_set_other in Hg by (trivial; congruence). exact Hg. }
  intros [[r [Hr H]] | [[c [Hc H]] | [H | H]]].
  - left. exists r. split; trivial. intros c Hc.
    apply Hcell; [split; assumption | apply H; exact Hc].
  - right; left. exists c. split; trivial. intros r Hr.
    apply Hcell; [split; assumption | apply H; exact Hr].
  - right; right; left. intros i Hi.
    apply Hcell; [split; assumption | apply H; exact Hi].
  - right; right; right. intros i Hi.
    apply Hcell; [split; trivial; unfold BoardSize in *; lia | apply H; exact Hi].
Qed.

(** On a board without a completed line, the scan's test at a cell is the
    specification's "filling it completes a line of [O]". *)
Lemma scanHit_completes (b : Board) (row col : nat) :
  checkWin b = false -> onBoard row col ->
  (scanHit b (row, col) = true <-> completes b row col).
Proof.
  intros Hnw Hon. unfold scanHit, completes. simpl.
  rewrite andb_true_iff, cell_eqb_eq, checkWin_lines.
  apply checkWin_false_lines in Hnw. destruct Hnw as [HnX _].
  split.
  - intros [He [Hx | Ho]]; repeat split; trivial; try apply Hon.
    exfalso. apply HnX.
    apply (has_line_set_other b row col O X); trivial. discriminate.
  - intros [_ [He Ho]]. auto.
Qed.

(** ** The board is full *)

Lemma checkDraw_full (b : Board) : checkDraw b = true <-> full b.
Proof.
  unfold checkDraw, full, onBoard. rewrite forallb_seq3. split.
  - intros H row col [Hr Hc]. specialize (H row Hr).
    rewrite forallb_seq3 in H. specialize (H col Hc).
    apply negb_true_iff, cell_eqb_neq in H. exact H.
  - intros H row Hr. apply forallb_seq3. intros col Hc.
    apply negb_true_iff, cell_eqb_neq. apply H. split; assumption.
Qed.

Lemma in_emptyCells (b : Board) (row col : nat) :
  In (row, col) (emptyCells b) <-> onBoard row col /\ get b row col = Empty.
Proof.
  unfold emptyCells. rewrite filter_In, in_cells. simpl.
  rewrite cell_eqb_eq. tauto.
Qed.

Lemma emptyCells_nil_full (b : Board) : emptyCells b = [] <-> full b.
Proof.
  split.
  - intros Hnil row col Hon He.
    assert (Hin : In (row, col) (emptyCells b)) by (apply in_emptyCells; auto).
    rewrite Hnil in Hin. exact Hin.
  - intro Hf. destruct (emptyCells b) as [| [r c] rest] eqn:E; [reflexivity |].
    assert (Hin : In (r, c) (emptyCells b)) by (rewrite E; left; reflexivity).
    apply in_emptyCells in Hin. destruct Hin as [Hon He].
    exfalso. exact (Hf r c Hon He).
Qed.

Lemma not_full_empty_cell (b : Board) :
  checkDraw b = false -> exists row col, onBoard row col /\ get b row col = Empty.
Proof.
  intro Hd. destruct (emptyCells b) as [| [r c] rest] eqn:E.
  - apply emptyCells_nil_full, checkDraw_full in E. congruence.
  - exists r, c. apply in_emptyCells. rewrite E. left. reflexivity.
Qed.

(** ** The AI's scan *)

(** The scan stops at the first cell of the list that passes its test and
    leaves [O] there; when no cell passes, the board is as it was. *)
Lemma winScan_find (todo : list (nat * nat)) (b : Board) :
  (forall rc, In rc todo -> onBoard (fst rc) (snd rc)) ->
  winScan todo b =
  match find (scanHit b) todo with
  | Some rc => (set b (fst rc) (snd rc) O, true)
  | None => (b, false)
  end.
Proof.
  induction todo as [| [row col] rest IH]; intro Hon; simpl; [reflexivity |].
  assert (Hrc : onBoard row col) by (apply (Hon (row, col)); left; reflexivity).
  assert (Hrest : forall rc, In rc rest -> onBoard (fst rc) (snd rc))
    by (intros rc Hin; apply Hon; right; exact Hin).
  unfold scanHit at 1. simpl.
  destruct (cell_eqb (get b row col) Empty) eqn:He; simpl.
  - destruct (checkWin (set b row col O)); [reflexivity |].
    apply cell_eqb_eq in He. rewrite set_undo by assumption.
    apply IH; exact Hrest.
  - apply IH; exact Hrest.
Qed.

(** [makeAIMove] by its three rules, all read on the board it was given. *)
Lemma makeAIMove_rules (raw : nat) (b : Board) :
  makeAIMove raw b =
  match find (scanHit b) cells with
  | Some rc => set b (fst rc) (snd rc) O
  | None =>
      if cell_eqb (get b 1 1) Empty then set b 1 1 O
      else match emptyCells b with
           | [] => b
           | _ :: _ =>
               let rc := nth (Intn raw (length (emptyCells b))) (emptyCells b) (0, 0) in
               set b (fst rc) (snd rc) O
           end
  end.
Proof.
  unfold makeAIMove. rewrite winScan_find.
  - destruct (find (scanHit b) cells) as [rc |]; [reflexivity |].
    destruct (cell_eqb (get b 1 1) Empty); [reflexivity |].
    destruct (emptyCells b); reflexivity.
  - intros [r c] Hin. apply in_cells. exact Hin.
Qed.

Lemma find_first (A : Type) (p : A -> bool) (lt : A -> A -> Prop)
      (l : list A) (x : A) :
  StronglySorted lt l -> In x l -> p x = true ->
  (forall y, In y l -> lt y x -> p y = false) ->
  find p l = Some x.
Proof.
  intros Hs Hin Hp Hlt. induction Hs as [| a l Hs IH Hall]; [contradiction |].
  simpl. destruct (p a) eqn:Hpa.
  - destruct Hin as [-> | Hin]; [reflexivity |].
    rewrite Forall_forall in Hall.
    rewrite (Hlt a (or_introl eq_refl) (Hall x Hin)) in Hpa.
    discriminate.
  - destruct Hin as [-> | Hin]; [congruence |].
    apply IH; [exact Hin |].
    intros y Hy. apply Hlt. right. exact Hy.
Qed.

Lemma find_all_false (A : Type) (p : A -> bool) (l : list A) :
  (forall x, In x l -> p x = false) -> find p l = None.
Proof.
  induction l as [| a l IH]; intro H; simpl; [reflexivity |].
  rewrite (H a) by (left; reflexivity). apply IH.
  intros x Hx. apply H. right. exact Hx.
Qed.

Lemma cells_sorted : StronglySorted before cells.
Proof.
  unfold cells, before. simpl.
  repeat (constructor; [| repeat constructor; simpl; lia]).
  constructor.
Qed.

(** On a non-full board the move places [O] on exactly one cell, which was
    empty. *)
Lemma makeAIMove_places (raw : nat) (b : Board) :
  checkDraw b = false ->
  exists row col,
    In (row, col) (emptyCells b) /\ makeAIMove raw b = set b row col O.
Proof.
  intro Hd. rewrite makeAIMove_rules.
  destruct (find (scanHit b) cells) as [[r c] |] eqn:Hf.
  - apply find_some in Hf. destruct Hf as [Hin Hhit].
    unfold scanHit in Hhit. simpl in Hhit.
    apply andb_true_iff in Hhit. destruct Hhit as [He _].
    exists r, c. split; [| reflexivity].
    apply in_emptyCells. split; [apply in_cells; exact Hin |].
    apply cell_eqb_eq. exact He.
  - destruct (cell_eqb (get b 1 1) Empty) eqn:Hc.
    + exists 1, 1. split; [| reflexivity].
      apply in_emptyCells. split; [unfold onBoard, BoardSize; lia |].
      apply cell_eqb_eq. exact Hc.
    + destruct (emptyCells b) as [| rc0 rest] eqn:E.
      * apply emptyCells_nil_full, checkDraw_full in E. congruence.
      * cbv zeta.
        set (k := Intn raw (length (rc0 :: rest))).
        assert (Hk : k < length (rc0 :: rest)).
        { unfold k, Intn. apply Nat.mod_upper_bound. simpl. lia. }
        pose proof (nth_In (rc0 :: rest) (0, 0) Hk) as Hin.
        destruct (nth k (rc0 :: rest) (0, 0)) as [r c].
        exists r, c. split; [exact Hin | reflexivity].
Qed.

(** On a full board the move changes nothing. *)
Lemma makeAIMove_full (raw : nat) (b : Board) :
  checkDraw b = true -> makeAIMove raw b = b.
Proof.
  intro Hd. apply checkDraw_full in Hd. rewrite makeAIMove_rules.
  rewrite find_all_false.
  - assert (Hc : get b 1 1 <> Empty)
      by (apply Hd; unfold onBoard, BoardSize; lia).
    apply cell_eqb_neq in Hc. rewrite Hc.
    apply emptyCells_nil_full in Hd. rewrite Hd. reflexivity.
  - intros [r c] Hin. apply in_cells in Hin. unfold scanHit. simpl.
    specialize (Hd r c Hin). apply cell_eqb_neq in Hd. rewrite Hd. reflexivity.
Qed.

(** ** Counting marks *)

Lemma count_set (m v : Cell) (b : Board) (row col : nat) :
  onBoard row col ->
  count m (set b row col v) + holds m (get b row col) = count m b + holds m v.
Proof.
  intros [Hr Hc]. destruct b as [[a00 a01 a02] [a10 a11 a12] [a20 a21 a22]].
  index3 Hr; index3 Hc; unfold count, cells; simpl; lia.
Qed.

(** Placing [v] on an empty cell adds one to the count of [v] and leaves
    the count of the other mark alone. *)
Lemma count_place (v : Cell) (b : Board) (row col : nat) :
  onBoard row col -> get b row col = Empty -> v <> Empty ->
  count v (set b row col v) = count v b + 1 /\
  count (opponent v) (set b row col v) = count (opponent v) b.
Proof.
  intros Hon He Hv.
  pose proof (count_set v v b row col Hon) as H1.
  pose proof (count_set (opponent v) v b row col Hon) as H2.
  rewrite He in H1, H2.
  destruct v; [congruence | |]; unfold holds in *; simpl in *; lia.
Qed.

Lemma count_emptyBoard (m : Cell) : m <> Empty -> count m emptyBoard = 0.
Proof. destruct m; [congruence | |]; reflexivity. Qed.

Lemma clearBoard_empty (b : Board) : clearBoard b = emptyBoard.
Proof.
  destruct b as [[a00 a01 a02] [a10 a11 a12] [a20 a21 a22]]. reflexivity.
Qed.

Lemma Reset_NewGame (g : Game) : Reset g = NewGame.
Proof. unfold Reset, NewGame. rewrite clearBoard_empty. reflexivity. Qed.

(** ** Frames and the session invariant *)

(** The range test of [Update] hands [humanMove] a cell of the board. *)
Lemma guard_onBoard (row col : Z) :
  ((row >=? 0)%Z && (row <? Z.of_nat BoardSize)%Z
   && (col >=? 0)%Z && (col <? Z.of_nat BoardSize)%Z) = true ->
  onBoard (Z.to_nat row) (Z.to_nat col).
Proof.
  rewrite !andb_true_iff, !Z.geb_le, !Z.ltb_lt.
  unfold onBoard, BoardSize. lia.
Qed.

(** What a click does on the human's turn. *)
Lemma humanMove_cases (row col : Z) (g : Game) :
  humanMove row col g = g \/
  (onBoard (Z.to_nat row) (Z.to_nat col) /\
   get (board g) (Z.to_nat row) (Z.to_nat col) = Empty /\
   let b1 := set (board g) (Z.to_nat row) (Z.to_nat col) (currentTurn g) in
   (checkWin b1 = true /\
      humanMove row col g = mkGame b1 (currentTurn g) XWins (aiDelay g)) \/
   (checkWin b1 = false /\ checkDraw b1 = true /\
      humanMove row col g = mkGame b1 (currentTurn g) Draw (aiDelay g)) \/
   (checkWin b1 = false /\ checkDraw b1 = false /\
      humanMove row col g = mkGame b1 O (state g) 30)).
Proof.
  unfold humanMove.
  destruct ((row >=? 0)%Z && (row <? Z.of_nat BoardSize)%Z
            && (col >=? 0)%Z && (col <? Z.of_nat BoardSize)%Z) eqn:Hg;
    [| left; reflexivity].
  destruct (cell_eqb (get (board g) (Z.to_nat row) (Z.to_nat col)) Empty) eqn:He;
    simpl; [| left; reflexivity].
  right. split; [apply guard_onBoard; exact Hg |].
  split; [apply cell_eqb_eq; exact He |].
  cbv zeta.
  destruct (checkWin _) eqn:Hw; [left; auto |].
  destruct (checkDraw _) eqn:Hd; [right; left; auto | right; right; auto].
Qed.

(** What a frame does on the AI's turn. *)
Lemma aiTurn_cases (raw : nat) (g : Game) :
  ((aiDelay g > 0)%Z /\
     aiTurn raw g = mkGame (board g) (currentTurn g) (state g) (aiDelay g - 1)) \/
  ((aiDelay g <= 0)%Z /\
   let b1 := makeAIMove raw (board g) in
   (checkWin b1 = true /\
      aiTurn raw g = mkGame b1 (currentTurn g) OWins (aiDelay g)) \/
   (checkWin b1 = false /\ checkDraw b1 = true /\
      aiTurn raw g = mkGame b1 (currentTurn g) Draw (aiDelay g)) \/
   (checkWin b1 = false /\ checkDraw b1 = false /\
      aiTurn raw g = mkGame b1 X (state g) (aiDelay g))).
Proof.
  unfold aiTurn. destruct (aiDelay g >? 0)%Z eqn:Hd0.
  - left. split; [lia | reflexivity].
  - right. split; [lia |]. cbv zeta.
    destruct (checkWin _) eqn:Hw; [left; auto |].
    destruct (checkDraw _) eqn:Hd; [right; left; auto | right; right; auto].
Qed.

Lemma session_inv_NewGame : session_inv NewGame.
Proof.
  unfold session_inv. simpl. split; [reflexivity |]. left. split; reflexivity.
Qed.

Lemma session_inv_Update (inp : Input) (g : Game) :
  session_inv g -> session_inv (Update inp g).
Proof.
  intro Hinv. unfold Update.
  destruct (state_eqb (state g) Playing) eqn:Hs; simpl.
  - apply state_eqb_eq in Hs. unfold session_inv in Hinv. rewrite Hs in Hinv.
    destruct Hinv as [Hnw [[Ht Hc] | [Ht [Hc Hnd]]]]; rewrite Ht; simpl.
    + destruct (justPressed inp);
        [| unfold session_inv; rewrite Hs; split; auto].
      destruct (humanMove_cases (Z.quot (cursorY inp) CellSize)
                                (Z.quot (cursorX inp) CellSize) g)
        as [-> | [Hon [He Hm]]];
        [unfold session_inv; rewrite Hs; split; auto |].
      rewrite Ht in Hm. cbv zeta in Hm.
      destruct (count_place X (board g) _ _ Hon He) as [HcX HcO];
        [discriminate |]. simpl in HcO.
      destruct Hm as [[Hw ->] | [[Hw [Hd ->]] | [Hw [Hd ->]]]];
        unfold session_inv; simpl; try lia.
      rewrite Hs. split; [exact Hw |]. right. repeat split; trivial. lia.
    + destruct (aiTurn_cases (rngRaw inp) g) as [[_ ->] | [_ Hm]].
      * unfold session_inv. simpl. rewrite Hs. split; auto.
      * cbv zeta in Hm.
        destruct (makeAIMove_places (rngRaw inp) (board g) Hnd) as [r [c [Hin Hmv]]].
        apply in_emptyCells in Hin. destruct Hin as [Hon He].
        destruct (count_place O (board g) _ _ Hon He) as [HcO HcX];
          [discriminate |]. simpl in HcX.
        rewrite Hmv in Hm.
        destruct Hm as [[Hw ->] | [[Hw [Hd ->]] | [Hw [Hd ->]]]];
          unfold session_inv; simpl; try lia.
        rewrite Hs. split; [exact Hw |]. left. split; trivial. lia.
  - destruct (justPressed inp); [| exact Hinv].
    rewrite Reset_NewGame. apply session_inv_NewGame.
Qed.

Lemma reachable_inv (g : Game) : reachable g -> session_inv g.
Proof.
  induction 1 as [| inp g Hr IH | g Hr IH].
  - apply session_inv_NewGame.
  - apply session_inv_Update. exact IH.
  - rewrite Reset_NewGame. apply session_inv_NewGame.
Qed.

(** Whenever the AI is asked to move, no line is complete yet and a cell is
    free. *)
Lemma reachable_ai_call (g : Game) :
  reachable g -> state g = Playing -> currentTurn g <> X ->
  checkWin (board g) = false /\ checkDraw (board g) = false.
Proof.
  intros Hr Hs Ht. apply reachable_inv in Hr.
  unfold session_inv in Hr. rewrite Hs in Hr.
  destruct Hr as [Hnw [[HX _] | [_ [_ Hnd]]]]; [contradiction | auto].
Qed.

(** ** Deciding the specification's predicates *)

Lemma completesP (b : Board) (row col : nat) :
  completes b row col <-> onBoard row col /\ completesb b (row, col) = true.
Proof.
  unfold completes, completesb. simpl.
  rewrite andb_true_iff, cell_eqb_eq, <- has_lineP. tauto.
Qed.

Lemma onBoard_cases (row col : nat) :
  onBoard row col -> In (row, col) [(0,0); (0,1); (0,2); (1,0); (1,1); (1,2); (2,0); (2,1); (2,2)].
Proof. intro H. apply in_cells in H. exact H. Qed.

(** ** Properties of the game core *)

(** C1, as the code has it: [checkWin] takes no mark, and it returns true
    if and only if some row, some column or some diagonal of the board is
    entirely occupied by one of the two marks, [X] or [O]. *)
Theorem checkWin_some_mark_line (b : Board) :
  checkWin b = true <-> exists m, (m = X \/ m = O) /\ has_line b m.
Proof.
  rewrite checkWin_lines. split.
  - intros [H | H]; [exists X | exists O]; auto.
  - intros [m [[-> | ->] H]]; auto.
Qed.

(** C1 fails as stated: with row 0 entirely [X] the check answers true
    although no line is entirely [O]. *)
Lemma checkWin_not_per_mark :
  checkWin boardXtop = true /\ ~ has_line boardXtop O.
Proof.
  split; [reflexivity |].
  intro H. apply has_lineP in H. discriminate H.
Qed.

(** C2, as the code has it: on a board where no line is complete yet (as
    on every board of a game that is still being played), if filling some
    empty cell with [O] completes a line of [O], [makeAIMove] places [O] in
    the first such cell of the row-major scan, whether or not the center is
    free. *)
Theorem makeAIMove_takes_first_win (raw : nat) (b : Board) (row col : nat) :
  checkWin b = false ->
  completes b row col ->
  (forall row' col', before (row', col') (row, col) -> ~ completes b row' col') ->
  makeAIMove raw b = set b row col O.
Proof.
  intros Hnw Hc Hfirst.
  assert (Hon : onBoard row col) by apply Hc.
  rewrite makeAIMove_rules.
  rewrite (find_first _ (scanHit b) before cells (row, col)).
  - reflexivity.
  - exact cells_sorted.
  - apply in_cells. exact Hon.
  - apply scanHit_completes; assumption.
  - intros [r c] Hin Hlt. apply in_cells in Hin.
    destruct (scanHit b (r, c)) eqn:Hhit; [| reflexivity].
    exfalso. apply (Hfirst r c Hlt).
    apply scanHit_completes; assumption.
Qed.

(** The example of C2: row 0 is [O O Empty], the rest is empty, and the AI
    plays (0,2). *)
Lemma makeAIMove_takes_first_win_example :
  makeAIMove 0 boardOO = set boardOO 0 2 O.
Proof.
  apply (makeAIMove_takes_first_win 0 boardOO 0 2).
  - reflexivity.
  - apply completesP. split; [unfold onBoard, BoardSize; lia | reflexivity].
  - intros r c Hlt Hc. apply completesP in Hc. destruct Hc as [_ Hc].
    unfold before in Hlt. simpl in Hlt.
    destruct Hlt as [Hlt | [-> Hlt]]; [lia |].
    destruct c as [| [| c]]; [discriminate Hc | discriminate Hc | lia].
Defined.

(** C2 fails as stated on a board where [X] already owns row 0: (2,2) is
    the first (and only) cell whose filling completes a line of [O], yet
    the scan stops at (1,0), the first empty cell. *)
Lemma makeAIMove_first_win_needs_no_line :
  completes boardXtopOO 2 2 /\
  (forall row' col', before (row', col') (2, 2) ->
                     ~ completes boardXtopOO row' col') /\
  makeAIMove 0 boardXtopOO = set boardXtopOO 1 0 O /\
  makeAIMove 0 boardXtopOO <> set boardXtopOO 2 2 O.
Proof.
  split; [| split; [| split]].
  - apply completesP. split; [unfold onBoard, BoardSize; lia | reflexivity].
  - intros r c Hlt Hc. apply completesP in Hc. destruct Hc as [Hon Hc].
    unfold before in Hlt. simpl in Hlt.
    apply onBoard_cases in Hon. simpl in Hon.
    repeat (destruct Hon as [Hon | Hon];
            [inversion Hon; subst; try discriminate Hc; lia |]).
    contradiction.
  - reflexivity.
  - discriminate.
Qed.

(** When the scan finds nothing on a board without a completed line, no
    placement of [O] completes a line, and conversely. *)
Lemma find_none_no_completes (b : Board) :
  checkWin b = false ->
  (forall row col, ~ completes b row col) ->
  find (scanHit b) cells = None.
Proof.
  intros Hnw Hno. apply find_all_false. intros [r c] Hin.
  apply in_cells in Hin.
  destruct (scanHit b (r, c)) eqn:Hhit; [| reflexivity].
  exfalso. apply (Hno r c). apply scanHit_completes; assumption.
Qed.

(** C7, as the code has it: on a board where no line is complete yet and
    no single placement of [O] completes a line of [O], an empty center
    receives the AI's mark. *)
Theorem makeAIMove_takes_center (raw : nat) (b : Board) :
  checkWin b = false ->
  (forall row col, ~ completes b row col) ->
  get b 1 1 = Empty ->
  makeAIMove raw b = set b 1 1 O.
Proof.
  intros Hnw Hno Hc. rewrite makeAIMove_rules.
  rewrite (find_none_no_completes b Hnw Hno).
  apply cell_eqb_eq in Hc. rewrite Hc. reflexivity.
Qed.

Lemma no_completes_by_test (b : Board) :
  forallb (fun rc => negb (completesb b rc)) cells = true ->
  forall row col, ~ completes b row col.
Proof.
  intros Hall row col Hc. apply completesP in Hc. destruct Hc as [Hon Hc].
  rewrite forallb_forall in Hall.
  specialize (Hall (row, col) (proj2 (in_cells row col) Hon)).
  rewrite Hc in Hall. discriminate Hall.
Qed.

(** The example of C7: on the empty board the AI plays the center. *)
Lemma makeAIMove_takes_center_example :
  makeAIMove 0 emptyBoard = set emptyBoard 1 1 O.
Proof.
  apply (makeAIMove_takes_center 0 emptyBoard).
  - reflexivity.
  - apply no_completes_by_test. reflexivity.
  - reflexivity.
Defined.

(** C7 fails as stated on a board where [X] already owns row 0: no
    placement of [O] completes a line of [O] and the center is empty, yet
    the AI plays (1,0). *)
Lemma makeAIMove_center_needs_no_line :
  (forall row col, ~ completes boardXtop row col) /\
  get boardXtop 1 1 = Empty /\
  makeAIMove 0 boardXtop = set boardXtop 1 0 O /\
  makeAIMove 0 boardXtop <> set boardXtop 1 1 O.
Proof.
  split; [| split; [| split]].
  - apply no_completes_by_test. reflexivity.
  - reflexivity.
  - reflexivity.
  - discriminate.
Qed.

(** C9: on a board with an empty cell, where no single placement of [O]
    completes a line of [O] and the center is occupied, the cell the AI
    plays was empty, whatever the random draw; and when no line is complete
    yet, it is the cell that the draw picks among the empty cells in
    row-major order. *)
Theorem makeAIMove_fallback_empty (raw : nat) (b : Board) :
  (exists row col, onBoard row col /\ get b row col = Empty) ->
  (forall row col, ~ completes b row col) ->
  get b 1 1 <> Empty ->
  exists row col,
    onBoard row col /\ get b row col = Empty /\
    makeAIMove raw b = set b row col O /\
    get (makeAIMove raw b) row col = O /\
    (checkWin b = false ->
     (row, col) = nth (Intn raw (length (emptyCells b))) (emptyCells b) (0, 0)).
Proof.
  intros [r0 [c0 [Hon0 He0]]] Hno Hc.
  rewrite makeAIMove_rules.
  destruct (find (scanHit b) cells) as [[r c] |] eqn:Hf.
  - apply find_some in Hf. destruct Hf as [Hin Hhit]. apply in_cells in Hin.
    exists r, c. simpl.
    assert (He : get b r c = Empty).
    { unfold scanHit in Hhit. simpl in Hhit.
      apply andb_true_iff in Hhit. apply cell_eqb_eq. apply Hhit. }
    repeat split; try apply Hin; trivial.
    + apply get_set_same. exact Hin.
    + intro Hnw. exfalso. apply (Hno r c).
      apply scanHit_completes; assumption.
  - apply cell_eqb_neq in Hc. rewrite Hc.
    destruct (emptyCells b) as [| rc0 rest] eqn:E.
    + exfalso. apply emptyCells_nil_full in E. exact (E r0 c0 Hon0 He0).
    + cbv zeta.
      set (k := Intn raw (length (rc0 :: rest))).
      assert (Hk : k < length (rc0 :: rest)).
      { unfold k, Intn. apply Nat.mod_upper_bound. simpl. lia. }
      pose proof (nth_In (rc0 :: rest) (0, 0) Hk) as Hin.
      destruct (nth k (rc0 :: rest) (0, 0)) as [r c].
      rewrite <- E in Hin. apply in_emptyCells in Hin.
      destruct Hin as [Hon He].
      exists r, c. simpl. repeat split; try apply Hon; trivial.
      apply get_set_same. exact Hon.
Qed.

(** C9 at work: with [X] on the center only and raw draw 5, the AI plays
    an empty cell. *)
Lemma makeAIMove_fallback_empty_example :
  exists row col,
    onBoard row col /\ get boardXcenter row col = Empty /\
    makeAIMove 5 boardXcenter = set boardXcenter row col O /\
    get (makeAIMove 5 boardXcenter) row col = O /\
    (checkWin boardXcenter = false ->
     (row, col) = nth (Intn 5 (length (emptyCells boardXcenter)))
                      (emptyCells boardXcenter) (0, 0)).
Proof.
  apply (makeAIMove_fallback_empty 5 boardXcenter).
  - exists 0, 0. split; [unfold onBoard, BoardSize; lia | reflexivity].
  - apply no_completes_by_test. reflexivity.
  - discriminate.
Defined.

(** C10: [makeAIMove] changes at most one cell.  If a cell is empty it
    turns exactly one cell from [Empty] into [O] and every other cell keeps
    its value (the placements tried during the scan are all undone); on a
    full board nothing changes. *)
Theorem makeAIMove_one_cell (raw : nat) (b : Board) :
  ((exists row col, onBoard row col /\ get b row col = Empty) ->
   exists row col,
     onBoard row col /\ get b row col = Empty /\
     get (makeAIMove raw b) row col = O /\
     (forall row' col', onBoard row' col' -> (row', col') <> (row, col) ->
        get (makeAIMove raw b) row' col' = get b row' col') /\
     makeAIMove raw b = set b row col O) /\
  (full b -> makeAIMove raw b = b).
Proof.
  split.
  - intros [r0 [c0 [Hon0 He0]]].
    assert (Hd : checkDraw b = false).
    { apply not_true_iff_false. intro Hd. apply checkDraw_full in Hd.
      exact (Hd r0 c0 Hon0 He0). }
    destruct (makeAIMove_places raw b Hd) as [r [c [Hin Hmv]]].
    apply in_emptyCells in Hin. destruct Hin as [Hon He].
    exists r, c. rewrite Hmv. repeat split; try apply Hon; trivial.
    + apply get_set_same. exact Hon.
    + intros r' c' Hon' Hne. apply get_set_other; assumption.
  - intro Hf. apply makeAIMove_full. apply checkDraw_full. exact Hf.
Qed.

(** C10 at work on the board with [X] on the center only, and on a full
    board. *)
Lemma makeAIMove_one_cell_example :
  exists row col,
    onBoard row col /\ get boardXcenter row col = Empty /\
    get (makeAIMove 7 boardXcenter) row col = O /\
    (forall row' col', onBoard row' col' -> (row', col') <> (row, col) ->
       get (makeAIMove 7 boardXcenter) row' col' = get boardXcenter row' col') /\
    makeAIMove 7 boardXcenter = set boardXcenter row col O.
Proof.
  apply (proj1 (makeAIMove_one_cell 7 boardXcenter)).
  exists 0, 0. split; [unfold onBoard, BoardSize; lia | reflexivity].
Defined.

(** C3: while the game is on, a human move aimed at a cell whose row or
    column lies outside [0,3), or at an occupied cell, changes nothing: the
    placement is skipped, and the frame of the human's turn that carries
    such a click returns the game as it was (board, outcome and turn). *)
Theorem invalid_click_ignored (g : Game) (row col : Z) :
  state g = Playing ->
  ((row < 0)%Z \/ (row >= 3)%Z \/ (col < 0)%Z \/ (col >= 3)%Z \/
   get (board g) (Z.to_nat row) (Z.to_nat col) <> Empty) ->
  humanMove row col g = g /\
  forall inp,
    currentTurn g = X ->
    Z.quot (cursorY inp) CellSize = row ->
    Z.quot (cursorX inp) CellSize = col ->
    Update inp g = g /\
    board (Update inp g) = board g /\
    state (Update inp g) = state g /\
    currentTurn (Update inp g) = currentTurn g.
Proof.
  intros Hs Hbad.
  assert (Hm : humanMove row col g = g).
  { unfold humanMove.
    destruct ((row >=? 0)%Z && (row <? Z.of_nat BoardSize)%Z
              && (col >=? 0)%Z && (col <? Z.of_nat BoardSize)%Z) eqn:Hg;
      [| reflexivity].
    destruct (cell_eqb (get (board g) (Z.to_nat row) (Z.to_nat col)) Empty)
      eqn:He; [| reflexivity].
    exfalso. apply cell_eqb_eq in He.
    rewrite !andb_true_iff, !Z.geb_le, !Z.ltb_lt in Hg.
    unfold BoardSize in Hg.
    destruct Hbad as [H | [H | [H | [H | H]]]]; try lia. contradiction. }
  split; [exact Hm |].
  intros inp Ht Hrow Hcol.
  assert (Hu : Update inp g = g).
  { unfold Update. rewrite Hs, Ht. simpl.
    destruct (justPressed inp); [| reflexivity].
    rewrite Hrow, Hcol. exact Hm. }
  rewrite Hu. auto.
Qed.

(** C3 at work: a click on the occupied center (pixel 250,250) and a click
    left of the window (pixel -300,100) are both ignored. *)
Lemma invalid_click_ignored_example :
  Update (mkInput true 250 250 0) gameTwoMoves = gameTwoMoves /\
  Update (mkInput true (-300) 100 0) gameTwoMoves = gameTwoMoves.
Proof.
  split.
  - apply (invalid_click_ignored gameTwoMoves 1 1); try reflexivity.
    right; right; right; right. discriminate.
  - apply (invalid_click_ignored gameTwoMoves 0 (-1)); try reflexivity.
    right; right; left. reflexivity.
Defined.

(** C5: once the outcome is [XWins], [OWins] or [Draw], a frame without a
    click changes nothing, and a frame with a click resets the game to
    exactly the initial configuration: empty board, [X] to move,
    [Playing].  [Reset] yields that configuration from any game. *)
Theorem terminal_only_reset (inp : Input) (g : Game) :
  terminal (state g) ->
  (justPressed inp = false -> Update inp g = g) /\
  (justPressed inp = true ->
     Update inp g = Reset g /\
     board (Update inp g) = emptyBoard /\
     currentTurn (Update inp g) = X /\
     state (Update inp g) = Playing) /\
  Reset g = mkGame emptyBoard X Playing 0.
Proof.
  intro Ht.
  assert (Hs : state_eqb (state g) Playing = false).
  { destruct Ht as [-> | [-> | ->]]; reflexivity. }
  unfold Update. rewrite Hs. simpl.
  split; [| split].
  - intros ->. reflexivity.
  - intros ->. rewrite Reset_NewGame. repeat split.
  - apply Reset_NewGame.
Qed.

(** C5 at work on a game won by [X]. *)
Lemma terminal_only_reset_example :
  Update (mkInput false 10 10 0) gameXWon = gameXWon /\
  Update (mkInput true 10 10 0) gameXWon = NewGame.
Proof.
  pose proof (terminal_only_reset (mkInput false 10 10 0) gameXWon
                (or_introl eq_refl)) as [H1 _].
  pose proof (terminal_only_reset (mkInput true 10 10 0) gameXWon
                (or_introl eq_refl)) as [_ [H2 H3]].
  split.
  - apply H1. reflexivity.
  - destruct (H2 eq_refl) as [H4 _]. rewrite H4. exact H3.
Defined.

(** What a frame does to a game that is on: nothing to the board, or one
    placement by the player whose turn it is, followed by the evaluation of
    the outcome. *)
Lemma Update_playing_cases (inp : Input) (g : Game) :
  state g = Playing ->
  (currentTurn g = X \/ currentTurn g = O) ->
  board (Update inp g) = board g \/
  exists row col,
    onBoard row col /\ get (board g) row col = Empty /\
    board (Update inp g) = set (board g) row col (currentTurn g) /\
    ((checkWin (board (Update inp g)) = true /\
        state (Update inp g) <> Playing) \/
     (checkWin (board (Update inp g)) = false /\
      checkDraw (board (Update inp g)) = true /\
        state (Update inp g) = Draw) \/
     (checkWin (board (Update inp g)) = false /\
      checkDraw (board (Update inp g)) = false /\
        state (Update inp g) = Playing /\
        currentTurn (Update inp g) = opponent (currentTurn g))).
Proof.
  intros Hs Ht. unfold Update. rewrite Hs. simpl.
  destruct Ht as [Ht | Ht]; rewrite Ht; simpl.
  - destruct (justPressed inp); [| left; reflexivity].
    destruct (humanMove_cases (Z.quot (cursorY inp) CellSize)
                              (Z.quot (cursorX inp) CellSize) g)
      as [-> | [Hon [He Hm]]]; [left; reflexivity |].
    right. cbv zeta in Hm. rewrite Ht in Hm.
    exists (Z.to_nat (Z.quot (cursorY inp) CellSize)),
           (Z.to_nat (Z.quot (cursorX inp) CellSize)).
    split; [exact Hon |]. split; [exact He |].
    destruct Hm as [[Hw ->] | [[Hw [Hd ->]] | [Hw [Hd ->]]]]; simpl.
    + split; [reflexivity |]. left. split; [exact Hw | discriminate].
    + split; [reflexivity |]. right; left. auto.
    + split; [reflexivity |]. right; right. auto.
  - destruct (aiTurn_cases (rngRaw inp) g) as [[_ ->] | [_ Hm]];
      [left; reflexivity |].
    cbv zeta in Hm.
    destruct (checkDraw (board g)) eqn:Hfull.
    + left. rewrite (makeAIMove_full (rngRaw inp) (board g) Hfull) in Hm.
      destruct Hm as [[_ ->] | [[_ [_ ->]] | [_ [_ ->]]]]; reflexivity.
    + right.
      destruct (makeAIMove_places (rngRaw inp) (board g) Hfull)
        as [r [c [Hin Hmv]]].
      apply in_emptyCells in Hin. destruct Hin as [Hon He].
      exists r, c. split; [exact Hon |]. split; [exact He |].
      rewrite Hmv in Hm.
      destruct Hm as [[Hw ->] | [[Hw [Hd ->]] | [Hw [Hd ->]]]]; simpl.
      * split; [reflexivity |]. left. split; [exact Hw | discriminate].
      * split; [reflexivity |]. right; left. auto.
      * split; [reflexivity |]. right; right. auto.
Qed.

(** C6: when a frame applies a move (the human's or the AI's) to a game
    that is on and the move ends in neither a win nor a draw, the turn
    passes to the opponent of the mark that was just placed. *)
Theorem turn_alternates (inp : Input) (g : Game) :
  state g = Playing ->
  (currentTurn g = X \/ currentTurn g = O) ->
  board (Update inp g) <> board g ->
  state (Update inp g) = Playing ->
  currentTurn (Update inp g) = opponent (currentTurn g) /\
  exists row col,
    onBoard row col /\ get (board g) row col = Empty /\
    board (Update inp g) = set (board g) row col (currentTurn g).
Proof.
  intros Hs Ht Hmoved Hon.
  destruct (Update_playing_cases inp g Hs Ht)
    as [Hsame | [r [c [Hrc [He [Hb Hout]]]]]]; [contradiction |].
  destruct Hout as [[_ Hn] | [[_ [_ Hd]] | [_ [_ [_ Hturn]]]]].
  - contradiction.
  - rewrite Hd in Hon. discriminate.
  - split; [exact Hturn |]. exists r, c. auto.
Qed.

(** C6 at work: the human's click on (0,2) hands the turn to [O], and the
    AI's reply hands it back to [X]. *)
Lemma turn_alternates_example :
  currentTurn (Update (mkInput true 450 50 0) gameTwoMoves) = O /\
  currentTurn (Update (mkInput false 0 0 0) gameOneMove) = X.
Proof.
  split.
  - apply (turn_alternates (mkInput true 450 50 0) gameTwoMoves);
      try reflexivity; [left; reflexivity | discriminate].
  - apply (turn_alternates (mkInput false 0 0 0) gameOneMove);
      try reflexivity; [right; reflexivity | discriminate].
Defined.

(** C8: [checkDraw] returns true if and only if no cell of the board is
    [Empty]; and when a frame applies a move to a game that is on, the
    move fills the last empty cell and neither mark owns a row, column or
    diagonal afterwards, the outcome becomes [Draw]. *)
Theorem draw_on_full_board :
  (forall b, checkDraw b = true <-> full b) /\
  (forall inp g,
     state g = Playing ->
     board (Update inp g) <> board g ->
     full (board (Update inp g)) ->
     ~ has_line (board (Update inp g)) X ->
     ~ has_line (board (Update inp g)) O ->
     state (Update inp g) = Draw).
Proof.
  split; [exact checkDraw_full |].
  intros inp g Hs Hmoved Hfull HnX HnO.
  apply checkDraw_full in Hfull.
  assert (Hnw : checkWin (board (Update inp g)) = false)
    by (apply checkWin_false_lines; auto).
  revert Hmoved Hfull Hnw. unfold Update. rewrite Hs. simpl.
  destruct (cell_eqb (currentTurn g) X).
  - destruct (justPressed inp); [| intro H; exfalso; apply H; reflexivity].
    destruct (humanMove_cases (Z.quot (cursorY inp) CellSize)
                              (Z.quot (cursorX inp) CellSize) g)
      as [-> | [_ [_ Hm]]]; [intro H; exfalso; apply H; reflexivity |].
    cbv zeta in Hm.
    destruct Hm as [[Hw ->] | [[Hw [Hd ->]] | [Hw [Hd ->]]]]; simpl;
      intros _ Hfull Hnw; congruence.
  - destruct (aiTurn_cases (rngRaw inp) g) as [[_ ->] | [_ Hm]];
      [intro H; exfalso; apply H; reflexivity |].
    cbv zeta in Hm.
    destruct Hm as [[Hw ->] | [[Hw [Hd ->]] | [Hw [Hd ->]]]]; simpl;
      intros _ Hfull Hnw; congruence.
Qed.

Lemma no_line_by_test (b : Board) (m : Cell) :
  has_lineb b m = false -> ~ has_line b m.
Proof. intros Hf Hl. apply has_lineP in Hl. congruence. Qed.

(** C8 at work: the click on the last empty cell (pixel 500,500) ends the
    game in a draw. *)
Lemma draw_on_full_board_example :
  state (Update (mkInput true 500 500 0) gameLastCell) = Draw.
Proof.
  apply (proj2 draw_on_full_board (mkInput true 500 500 0) gameLastCell).
  - reflexivity.
  - discriminate.
  - apply checkDraw_full. reflexivity.
  - apply no_line_by_test. reflexivity.
  - apply no_line_by_test. reflexivity.
Defined.

(** C4: in every state a play session can reach from the initial state by
    frames and resets, the number of cells holding [X] minus the number of
    cells holding [O] is 0 or 1. *)
Theorem marks_balanced (g : Game) :
  reachable g ->
  (0 <= Z.of_nat (count X (board g)) - Z.of_nat (count O (board g)) <= 1)%Z.
Proof.
  intro Hr. apply reachable_inv in Hr. unfold session_inv in Hr.
  destruct (state g).
  - destruct Hr as [_ [[_ Hc] | [_ [Hc _]]]]; lia.
  - lia.
  - lia.
  - lia.
Qed.

(** C4 at work: after the human's first click, on (0,0), [X] is one
    ahead. *)
Lemma marks_balanced_example :
  (0 <= Z.of_nat (count X (board (Update (mkInput true 50 50 0) NewGame)))
        - Z.of_nat (count O (board (Update (mkInput true 50 50 0) NewGame)))
     <= 1)%Z.
Proof.
  apply (marks_balanced (Update (mkInput true 50 50 0) NewGame)).
  apply reach_update. apply reach_new.
Defined.

(** ** Beyond the claims: outcomes, pacing, clicks and counting *)

Lemma CellSize_200 : CellSize = 200%Z.
Proof. reflexivity. Qed.

(** A mark placed on a board without lines can only complete a line of
    its own. *)
Lemma place_win (b : Board) (row col : nat) (v : Cell) :
  onBoard row col -> v = X \/ v = O ->
  ~ has_line b X -> ~ has_line b O ->
  checkWin (set b row col v) = true ->
  has_line (set b row col v) v /\ ~ has_line (set b row col v) (opponent v).
Proof.
  intros Hon Hv HnX HnO Hw.
  assert (Hopp : ~ has_line (set b row col v) (opponent v)).
  { intro Hl. apply has_line_set_other in Hl; trivial.
    - destruct Hv as [-> | ->]; simpl in Hl; contradiction.
    - destruct Hv as [-> | ->]; discriminate. }
  split; [| exact Hopp].
  apply checkWin_lines in Hw.
  destruct Hv as [-> | ->]; simpl in Hopp; tauto.
Qed.

Lemma outcome_inv_NewGame : outcome_inv NewGame.
Proof.
  unfold outcome_inv. simpl.
  split; [left; reflexivity |]. split; [lia |].
  repeat split; try reflexivity; apply no_line_by_test; reflexivity.
Qed.

Lemma outcome_inv_Update (inp : Input) (g : Game) :
  outcome_inv g -> outcome_inv (Update inp g).
Proof.
  intros [Hturn [Hdelay Hst]]. unfold Update.
  destruct (state_eqb (state g) Playing) eqn:Hs; simpl.
  - apply state_eqb_eq in Hs. rewrite Hs in Hst.
    destruct Hst as [HnX [HnO [Hnd Hzero]]].
    destruct Hturn as [Ht | Ht]; rewrite Ht; simpl.
    + assert (Hkeep : outcome_inv g).
      { unfold outcome_inv. rewrite Hs. auto 10. }
      destruct (justPressed inp); [| exact Hkeep].
      destruct (humanMove_cases (Z.quot (cursorY inp) CellSize)
                                (Z.quot (cursorX inp) CellSize) g)
        as [-> | [Hon [He Hm]]]; [exact Hkeep |].
      rewrite Ht in Hm. cbv zeta in Hm. specialize (Hzero Ht).
      destruct Hm as [[Hw ->] | [[Hw [Hd ->]] | [Hw [Hd ->]]]];
        unfold outcome_inv; simpl.
      * destruct (place_win (board g) _ _ X Hon (or_introl eq_refl) HnX HnO Hw)
          as [HlX HlO].
        split; [left; reflexivity |]. split; [lia |]. auto.
      * apply checkWin_false_lines in Hw. apply checkDraw_full in Hd.
        split; [left; reflexivity |]. split; [lia |]. tauto.
      * apply checkWin_false_lines in Hw. rewrite Hs.
        split; [right; reflexivity |]. split; [lia |].
        repeat split; try tauto. discriminate.
    + destruct (aiTurn_cases (rngRaw inp) g) as [[Hpos ->] | [Hle Hm]].
      * unfold outcome_inv. simpl. rewrite Hs, Ht.
        split; [right; reflexivity |]. split; [lia |].
        repeat split; trivial. discriminate.
      * cbv zeta in Hm.
        destruct (makeAIMove_places (rngRaw inp) (board g) Hnd)
          as [r [c [Hin Hmv]]].
        apply in_emptyCells in Hin. destruct Hin as [Hon He].
        rewrite Hmv in Hm.
        destruct Hm as [[Hw ->] | [[Hw [Hd ->]] | [Hw [Hd ->]]]];
          unfold outcome_inv; simpl.
        -- destruct (place_win (board g) _ _ O Hon (or_intror eq_refl)
                       HnX HnO Hw) as [HlO HlX].
           split; [right; exact Ht |]. split; [lia |].
           repeat split; trivial. lia.
        -- apply checkWin_false_lines in Hw. apply checkDraw_full in Hd.
           split; [right; exact Ht |]. split; [lia |].
           repeat split; try tauto. lia.
        -- apply checkWin_false_lines in Hw. rewrite Hs.
           split; [left; reflexivity |]. split; [lia |].
           repeat split; try tauto. intros _. lia.
  - destruct (justPressed inp).
    + rewrite Reset_NewGame. apply outcome_inv_NewGame.
    + unfold outcome_inv. auto.
Qed.

Lemma reachable_outcome_inv (g : Game) : reachable g -> outcome_inv g.
Proof.
  induction 1 as [| inp g Hr IH | g Hr IH].
  - apply outcome_inv_NewGame.
  - apply outcome_inv_Update. exact IH.
  - rewrite Reset_NewGame. apply outcome_inv_NewGame.
Qed.

Lemma reachable_frames (inps : list Input) (g : Game) :
  reachable g -> reachable (frames inps g).
Proof.
  revert g. induction inps as [| inp inps IH]; intros g Hr; simpl.
  - exact Hr.
  - apply IH. apply reach_update. exact Hr.
Qed.

(** X1: in every state a session can reach, the outcome is the one the
    board shows: [XWins] exactly when [X] owns a line, [OWins] exactly when
    [O] owns one, [Draw] exactly when the board is full without a line, and
    [Playing] exactly when it is neither full nor won. *)
Theorem outcome_shown_by_board (g : Game) :
  reachable g ->
  (state g = XWins <-> has_line (board g) X) /\
  (state g = OWins <-> has_line (board g) O) /\
  (state g = Draw <->
     full (board g) /\ ~ has_line (board g) X /\ ~ has_line (board g) O) /\
  (state g = Playing <->
     ~ full (board g) /\ ~ has_line (board g) X /\ ~ has_line (board g) O).
Proof.
  intro Hr. apply reachable_outcome_inv in Hr.
  destruct Hr as [_ [_ Hst]].
  assert (Hfull : checkDraw (board g) = false <-> ~ full (board g)).
  { rewrite <- checkDraw_full. symmetry. apply not_true_iff_false. }
  destruct (state g).
  - destruct Hst as [HnX [HnO [Hnd _]]]. apply Hfull in Hnd.
    repeat split; intros; try discriminate; try tauto.
  - destruct Hst as [HlX [HnO _]].
    repeat split; intros; try discriminate; try tauto.
  - destruct Hst as [HlO [HnX _]].
    repeat split; intros; try discriminate; try tauto.
  - destruct Hst as [Hf [HnX [HnO _]]].
    repeat split; intros; try discriminate; try tauto.
Qed.

(** X1 at work on the example session. *)
Lemma outcome_shown_by_board_example :
  (state gameAICanWin = XWins <-> has_line (board gameAICanWin) X) /\
  (state gameAICanWin = OWins <-> has_line (board gameAICanWin) O) /\
  (state gameAICanWin = Draw <->
     full (board gameAICanWin) /\ ~ has_line (board gameAICanWin) X /\
     ~ has_line (board gameAICanWin) O) /\
  (state gameAICanWin = Playing <->
     ~ full (board gameAICanWin) /\ ~ has_line (board gameAICanWin) X /\
     ~ has_line (board gameAICanWin) O).
Proof.
  apply (outcome_shown_by_board gameAICanWin).
  apply reachable_frames. apply reach_new.
Defined.

(** X2: in every state a session can reach, the turn is [X]'s or [O]'s,
    the pause counter [aiDelay] lies between 0 and 30, and it is non-zero
    only while the game is on and the AI is waiting to move. *)
Theorem pause_counter_bounds (g : Game) :
  reachable g ->
  (currentTurn g = X \/ currentTurn g = O) /\
  (0 <= aiDelay g <= 30)%Z /\
  (aiDelay g <> 0%Z -> state g = Playing /\ currentTurn g = O).
Proof.
  intro Hr. apply reachable_outcome_inv in Hr.
  destruct Hr as [Hturn [Hdelay Hst]].
  split; [exact Hturn |]. split; [exact Hdelay |].
  intro Hnz. destruct (state g).
  - split; [reflexivity |].
    destruct Hst as [_ [_ [_ Hzero]]].
    destruct Hturn as [Ht | Ht]; [exfalso; auto | exact Ht].
  - exfalso. tauto.
  - exfalso. tauto.
  - exfalso. tauto.
Qed.

(** X2 at work right after the human's first move, when the counter is
    at 30. *)
Lemma pause_counter_bounds_example :
  (currentTurn (Update (clickAt 50 50) NewGame) = X \/
   currentTurn (Update (clickAt 50 50) NewGame) = O) /\
  (0 <= aiDelay (Update (clickAt 50 50) NewGame) <= 30)%Z /\
  (aiDelay (Update (clickAt 50 50) NewGame) <> 0%Z ->
   state (Update (clickAt 50 50) NewGame) = Playing /\
   currentTurn (Update (clickAt 50 50) NewGame) = O).
Proof.
  apply (pause_counter_bounds (Update (clickAt 50 50) NewGame)).
  apply reach_update. apply reach_new.
Defined.

(** X3: what the status line says depends on the board alone: two
    reachable states with the same board have the same outcome and the same
    status text. *)
Theorem status_line_from_board (g1 g2 : Game) :
  reachable g1 -> reachable g2 -> board g1 = board g2 ->
  state g1 = state g2 /\ statusText g1 = statusText g2.
Proof.
  intros Hr1 Hr2 Hb.
  pose proof (reachable_inv g1 Hr1) as Hc1.
  pose proof (reachable_inv g2 Hr2) as Hc2.
  apply reachable_outcome_inv in Hr1. apply reachable_outcome_inv in Hr2.
  destruct Hr1 as [_ [_ Hs1]]. destruct Hr2 as [_ [_ Hs2]].
  unfold session_inv in Hc1, Hc2. unfold statusText.
  assert (Hfull : forall b, checkDraw b = false -> full b -> False).
  { intros b Hd Hf. apply checkDraw_full in Hf. congruence. }
  rewrite Hb in *.
  destruct (state g1), (state g2); try (split; reflexivity);
    try (exfalso; tauto); try (exfalso; apply (Hfull (board g2)); tauto).
  split; [reflexivity |].
  destruct Hc1 as [_ [[Ht1 Hn1] | [Ht1 [Hn1 _]]]];
    destruct Hc2 as [_ [[Ht2 Hn2] | [Ht2 [Hn2 _]]]];
    rewrite Ht1, Ht2; try reflexivity; exfalso; lia.
Qed.

(** X3 at work: right after the human's first move and one frame later
    the pause counters differ, the status line does not. *)
Lemma status_line_from_board_example :
  state (Update (clickAt 50 50) NewGame)
  = state (frames [clickAt 50 50; noClick 0] NewGame) /\
  statusText (Update (clickAt 50 50) NewGame)
  = statusText (frames [clickAt 50 50; noClick 0] NewGame).
Proof.
  apply (status_line_from_board (Update (clickAt 50 50) NewGame)
           (frames [clickAt 50 50; noClick 0] NewGame)).
  - apply reach_update. apply reach_new.
  - apply reachable_frames. apply reach_new.
  - reflexivity.
Defined.

(** X4: on the human's turn, a click on an empty cell that completes a
    line of [X] ends the game at once: the mark is placed, the outcome is
    [XWins], the turn stays with [X] and the pause counter is not started,
    so no AI move follows. *)
Theorem human_win_detected (inp : Input) (g : Game) (row col : nat) :
  state g = Playing -> currentTurn g = X -> justPressed inp = true ->
  Z.quot (cursorY inp) CellSize = Z.of_nat row ->
  Z.quot (cursorX inp) CellSize = Z.of_nat col ->
  onBoard row col -> get (board g) row col = Empty ->
  has_line (set (board g) row col X) X ->
  Update inp g = mkGame (set (board g) row col X) X XWins (aiDelay g).
Proof.
  intros Hs Ht Hp Hrow Hcol [Hr Hc] He Hl.
  unfold Update. rewrite Hs, Ht, Hp. simpl. rewrite Hrow, Hcol.
  unfold humanMove. rewrite !Nat2Z.id, Ht.
  replace ((Z.of_nat row >=? 0)%Z && (Z.of_nat row <? Z.of_nat BoardSize)%Z
           && (Z.of_nat col >=? 0)%Z && (Z.of_nat col <? Z.of_nat BoardSize)%Z)
    with true.
  - apply cell_eqb_eq in He. rewrite He. simpl.
    assert (Hw : checkWin (set (board g) row col X) = true)
      by (apply checkWin_lines; left; exact Hl).
    rewrite Hw. reflexivity.
  - symmetry. rewrite !andb_true_iff, !Z.geb_le, !Z.ltb_lt. lia.
Qed.

(** A game in which [X] holds (0,0) and (0,1), [O] holds (1,1) and (1,0);
    the human is to move. *)
Lemma human_win_detected_example :
  Update (clickAt 450 50)
         (mkGame (mkArr3 (mkArr3 X X Empty) (mkArr3 O O Empty) emptyRow)
                 X Playing 0)
  = mkGame (mkArr3 rowXXX (mkArr3 O O Empty) emptyRow) X XWins 0.
Proof.
  apply (human_win_detected (clickAt 450 50)
           (mkGame (mkArr3 (mkArr3 X X Empty) (mkArr3 O O Empty) emptyRow)
                   X Playing 0) 0 2);
    try reflexivity.
  - unfold onBoard, BoardSize. lia.
  - apply has_lineP. reflexivity.
Defined.

(** X5: in play the AI never misses an immediate win: when it is the
    AI's turn, its pause has elapsed and some empty cell completes a line
    of [O], the frame ends the game with [OWins] and [O] owns a line. *)
Theorem ai_takes_win_in_play (inp : Input) (g : Game) :
  reachable g ->
  state g = Playing -> currentTurn g = O -> aiDelay g = 0%Z ->
  (exists row col, completes (board g) row col) ->
  state (Update inp g) = OWins /\ has_line (board (Update inp g)) O.
Proof.
  intros Hr Hs Ht Hd [row [col Hc]].
  assert (Hinv' : outcome_inv (Update inp g)).
  { apply reachable_outcome_inv. apply reach_update. exact Hr. }
  apply reachable_outcome_inv in Hr. destruct Hr as [_ [_ Hst]].
  rewrite Hs in Hst. destruct Hst as [HnX [HnO _]].
  assert (Hnw : checkWin (board g) = false)
    by (apply checkWin_false_lines; auto).
  assert (Hon : onBoard row col) by apply Hc.
  apply (scanHit_completes (board g) row col Hnw Hon) in Hc.
  assert (Hstate : state (Update inp g) = OWins).
  { unfold Update. rewrite Hs, Ht. simpl. unfold aiTurn. rewrite Hd. simpl.
    rewrite makeAIMove_rules.
    destruct (find (scanHit (board g)) cells) as [[r c] |] eqn:Hf.
    - apply find_some in Hf. destruct Hf as [_ Hhit].
      unfold scanHit in Hhit. simpl in Hhit.
      apply andb_true_iff in Hhit. destruct Hhit as [_ Hw].
      simpl. rewrite Hw. reflexivity.
    - exfalso.
      pose proof (find_none _ _ Hf (row, col)
                    (proj2 (in_cells row col) Hon)) as Hno.
      congruence. }
  split; [exact Hstate |].
  destruct Hinv' as [_ [_ Hst']]. rewrite Hstate in Hst'. apply Hst'.
Qed.

(** X5 at work at the end of the example session: [O] holds (1,0) and
    (1,1), and (1,2) is free. *)
Lemma ai_takes_win_in_play_example :
  state (Update (noClick 0) gameAICanWin) = OWins /\
  has_line (board (Update (noClick 0) gameAICanWin)) O.
Proof.
  apply (ai_takes_win_in_play (noClick 0) gameAICanWin).
  - apply reachable_frames. apply reach_new.
  - reflexivity.
  - reflexivity.
  - reflexivity.
  - exists 1, 2. apply completesP.
    split; [unfold onBoard, BoardSize; lia | reflexivity].
Defined.

(** Frames of the AI's pause. *)
Lemma frames_pause (inps : list Input) (g : Game) :
  state g = Playing -> currentTurn g <> X ->
  (Z.of_nat (length inps) <= aiDelay g)%Z ->
  frames inps g =
  mkGame (board g) (currentTurn g) (state g)
         (aiDelay g - Z.of_nat (length inps)).
Proof.
  revert g. induction inps as [| inp inps IH]; intros g Hs Ht Hn.
  - simpl. rewrite Z.sub_0_r. destruct g; reflexivity.
  - simpl length in *. rewrite Nat2Z.inj_succ in *.
    assert (Hstep : Update inp g =
                    mkGame (board g) (currentTurn g) (state g) (aiDelay g - 1)).
    { unfold Update.
      replace (negb (state_eqb (state g) Playing)) with false
        by (rewrite Hs; reflexivity).
      replace (cell_eqb (currentTurn g) X) with false
        by (symmetry; apply cell_eqb_neq; exact Ht).
      unfold aiTurn. replace (aiDelay g >? 0)%Z with true; [reflexivity |].
      symmetry. apply Z.gtb_lt. lia. }
    change (frames (inp :: inps) g) with (frames inps (Update inp g)).
    rewrite Hstep. rewrite IH; simpl; trivial; [| lia].
    f_equal. lia.
Qed.

(** X6: while the game is on and it is not the human's turn, frames do
    nothing but count the pause down, whatever the mouse does: after [n]
    frames, [n] at most the counter, the game is the same with the counter
    lowered by [n]. *)
Theorem ai_pause_counts_down (inps : list Input) (g : Game) :
  state g = Playing -> currentTurn g <> X ->
  (Z.of_nat (length inps) <= aiDelay g)%Z ->
  frames inps g =
  mkGame (board g) (currentTurn g) (state g)
         (aiDelay g - Z.of_nat (length inps)).
Proof. exact (frames_pause inps g). Qed.

(** X6 at work: ten frames, clicks included, while the AI waits with its
    counter at 30. *)
Lemma ai_pause_counts_down_example :
  frames (repeat (clickAt 250 250) 10)
         (mkGame (board gameOneMove) O Playing 30) =
  mkGame (board gameOneMove) O Playing 20.
Proof.
  apply (ai_pause_counts_down (repeat (clickAt 250 250) 10)
           (mkGame (board gameOneMove) O Playing 30)).
  - reflexivity.
  - discriminate.
  - simpl. lia.
Defined.

(** X7: the AI moves on the frame after its pause: if the counter equals
    the number of frames that pass first, the next frame applies
    [makeAIMove] with that frame's random value to the board the human
    left, and the counter is then zero. *)
Theorem ai_moves_after_pause (inps : list Input) (inp : Input) (g : Game) :
  state g = Playing -> currentTurn g <> X ->
  aiDelay g = Z.of_nat (length inps) ->
  board (frames (inps ++ [inp]) g) = makeAIMove (rngRaw inp) (board g) /\
  aiDelay (frames (inps ++ [inp]) g) = 0%Z.
Proof.
  intros Hs Ht Hd. unfold frames. rewrite fold_left_app. fold (frames inps g).
  rewrite (frames_pause inps g Hs Ht) by lia.
  simpl. unfold Update. simpl.
  replace (negb (state_eqb (state g) Playing)) with false
    by (rewrite Hs; reflexivity).
  replace (cell_eqb (currentTurn g) X) with false
    by (symmetry; apply cell_eqb_neq; exact Ht).
  unfold aiTurn. simpl.
  replace (aiDelay g - Z.of_nat (length inps) >? 0)%Z with false
    by (symmetry; rewrite Z.gtb_ltb; apply Z.ltb_ge; lia).
  destruct (checkWin _); [simpl; split; [reflexivity | lia] |].
  destruct (checkDraw _); simpl; split; try reflexivity; lia.
Qed.

(** X7 at work: after the human's first move the AI answers on the 31st
    frame. *)
Lemma ai_moves_after_pause_example :
  board (frames (repeat (clickAt 0 0) 30 ++ [noClick 0])
                (Update (clickAt 50 50) NewGame))
  = makeAIMove 0 (board (Update (clickAt 50 50) NewGame)) /\
  aiDelay (frames (repeat (clickAt 0 0) 30 ++ [noClick 0])
                  (Update (clickAt 50 50) NewGame)) = 0%Z.
Proof.
  apply (ai_moves_after_pause (repeat (clickAt 0 0) 30) (noClick 0)
           (Update (clickAt 50 50) NewGame)).
  - reflexivity.
  - discriminate.
  - reflexivity.
Defined.

(** X8: a frame of a game that is on never removes or overwrites a mark:
    every occupied cell keeps its value. *)
Theorem marks_never_retracted (inp : Input) (g : Game) (row col : nat) :
  state g = Playing -> onBoard row col ->
  get (board g) row col <> Empty ->
  get (board (Update inp g)) row col = get (board g) row col.
Proof.
  intros Hs Hon Hocc.
  assert (Hset : forall r c v, onBoard r c -> get (board g) r c = Empty ->
            get (set (board g) r c v) row col = get (board g) row col).
  { intros r c v Hrc He. apply get_set_other; trivial.
    intro Heq. inversion Heq; subst. contradiction. }
  unfold Update. rewrite Hs. simpl.
  destruct (cell_eqb (currentTurn g) X).
  - destruct (justPressed inp); [| reflexivity].
    destruct (humanMove_cases (Z.quot (cursorY inp) CellSize)
                              (Z.quot (cursorX inp) CellSize) g)
      as [-> | [Hrc [He Hm]]]; [reflexivity |].
    cbv zeta in Hm.
    destruct Hm as [[_ ->] | [[_ [_ ->]] | [_ [_ ->]]]]; simpl;
      apply Hset; assumption.
  - destruct (aiTurn_cases (rngRaw inp) g) as [[_ ->] | [_ Hm]];
      [reflexivity |].
    cbv zeta in Hm.
    assert (Hmv : get (makeAIMove (rngRaw inp) (board g)) row col
                  = get (board g) row col).
    { destruct (checkDraw (board g)) eqn:Hfull.
      - rewrite makeAIMove_full by exact Hfull. reflexivity.
      - destruct (makeAIMove_places (rngRaw inp) (board g) Hfull)
          as [r [c [Hin ->]]].
        apply in_emptyCells in Hin. destruct Hin as [Hrc He].
        apply Hset; assumption. }
    destruct Hm as [[_ ->] | [[_ [_ ->]] | [_ [_ ->]]]]; simpl; exact Hmv.
Qed.

(** X8 at work: the human's click on (0,2) leaves the AI's mark on the
    center. *)
Lemma marks_never_retracted_example :
  get (board (Update (clickAt 450 50) gameTwoMoves)) 1 1
  = get (board gameTwoMoves) 1 1.
Proof.
  apply (marks_never_retracted (clickAt 450 50) gameTwoMoves 1 1).
  - reflexivity.
  - unfold onBoard, BoardSize. lia.
  - discriminate.
Defined.

Lemma quot_cell_range (p : Z) :
  (0 <= Z.quot p CellSize < 3 <-> - CellSize < p < ScreenWidth)%Z.
Proof.
  rewrite CellSize_200. unfold ScreenWidth.
  Z.to_euclidean_division_equations. lia.
Qed.

(** X9: which clicks count on the human's turn.  Pixel coordinates are
    divided by [CellSize] with truncation toward zero, so the click is
    accepted exactly when both coordinates lie strictly between
    [-CellSize] and the window size and the cell hit is empty; it then
    places [X] there.  Any other click leaves the game as it is.  In
    particular a click up to 199 pixels left of or above the window counts
    as column 0 or row 0. *)
Theorem click_region (inp : Input) (g : Game) :
  state g = Playing -> currentTurn g = X -> justPressed inp = true ->
  let row := Z.to_nat (Z.quot (cursorY inp) CellSize) in
  let col := Z.to_nat (Z.quot (cursorX inp) CellSize) in
  let accepted :=
    (- CellSize < cursorX inp < ScreenWidth)%Z /\
    (- CellSize < cursorY inp < ScreenHeight)%Z /\
    get (board g) row col = Empty in
  (accepted ->
     onBoard row col /\
     board (Update inp g) = set (board g) row col X /\
     board (Update inp g) <> board g) /\
  (~ accepted -> Update inp g = g).
Proof.
  intros Hs Ht Hp row col accepted.
  assert (Hu : Update inp g =
               humanMove (Z.quot (cursorY inp) CellSize)
                         (Z.quot (cursorX inp) CellSize) g).
  { unfold Update. rewrite Hs, Ht, Hp. reflexivity. }
  rewrite Hu. unfold humanMove. fold row. fold col.
  pose proof (quot_cell_range (cursorX inp)) as Hx.
  pose proof (quot_cell_range (cursorY inp)) as Hy.
  destruct ((Z.quot (cursorY inp) CellSize >=? 0)%Z
            && (Z.quot (cursorY inp) CellSize <? Z.of_nat BoardSize)%Z
            && (Z.quot (cursorX inp) CellSize >=? 0)%Z
            && (Z.quot (cursorX inp) CellSize <? Z.of_nat BoardSize)%Z) eqn:Hg.
  - pose proof (guard_onBoard _ _ Hg) as Hon. fold row in Hon. fold col in Hon.
    destruct (cell_eqb (get (board g) row col) Empty) eqn:He; simpl.
    + split; [| intro Hn; exfalso; apply Hn; unfold accepted].
      * intros _. split; [exact Hon |]. rewrite Ht.
        assert (Hb : set (board g) row col X <> board g).
        { intro Heq. apply cell_eqb_eq in He.
          pose proof (get_set_same (board g) row col X Hon) as Hg'.
          rewrite Heq in Hg'. congruence. }
        destruct (checkWin _); [simpl; auto |].
        destruct (checkDraw _); simpl; auto.
      * rewrite !andb_true_iff, !Z.geb_le, !Z.ltb_lt in Hg.
        unfold BoardSize, ScreenHeight, ScreenWidth in *.
        apply cell_eqb_eq in He. split; [| split]; [lia | lia | exact He].
    + split; [| reflexivity].
      intros [_ [_ Hacc]]. apply cell_eqb_neq in He. contradiction.
  - simpl. split; [| reflexivity].
    intros [Hax [Hay _]]. exfalso.
    apply Hx in Hax. apply Hy in Hay.
    rewrite !andb_false_iff, !Z.geb_leb, !Z.leb_gt, !Z.ltb_ge in Hg.
    unfold BoardSize in Hg. lia.
Qed.

(** X9 at work: a click 100 pixels left of and above the window takes the
    corner (0,0) of the empty board. *)
Lemma click_region_example :
  board (Update (clickAt (-100) (-100)) NewGame) = set emptyBoard 0 0 X.
Proof.
  apply (click_region (clickAt (-100) (-100)) NewGame); try reflexivity.
  repeat split; reflexivity.
Defined.

Lemma holds_same (m : Cell) : holds m m = 1.
Proof. unfold holds. rewrite cell_eqb_refl. reflexivity. Qed.

Lemma holds_partition (c : Cell) : holds Empty c + holds X c + holds O c = 1.
Proof. destruct c; reflexivity. Qed.

(** A line of [m] takes three cells holding [m]. *)
Lemma line_count (b : Board) (m : Cell) : has_line b m -> 3 <= count m b.
Proof.
  assert (H3 : 0 < BoardSize /\ 1 < BoardSize /\ 2 < BoardSize)
    by (unfold BoardSize; lia).
  destruct H3 as [L0 [L1 L2]].
  destruct b as [[a00 a01 a02] [a10 a11 a12] [a20 a21 a22]].
  intros [[r [Hr H]] | [[c [Hc H]] | [H | H]]].
  - pose proof (H 0 L0) as H0. pose proof (H 1 L1) as H1.
    pose proof (H 2 L2) as H2.
    index3 Hr; simpl in *; subst;
      unfold count, cells; simpl; rewrite !holds_same; lia.
  - pose proof (H 0 L0) as H0. pose proof (H 1 L1) as H1.
    pose proof (H 2 L2) as H2.
    index3 Hc; simpl in *; subst;
      unfold count, cells; simpl; rewrite !holds_same; lia.
  - pose proof (H 0 L0) as H0. pose proof (H 1 L1) as H1.
    pose proof (H 2 L2) as H2.
    simpl in H0, H1, H2; subst.
    unfold count, cells; simpl; rewrite !holds_same; lia.
  - pose proof (H 0 L0) as H0. pose proof (H 1 L1) as H1.
    pose proof (H 2 L2) as H2.
    simpl in H0, H1, H2; subst.
    unfold count, cells; simpl; rewrite !holds_same; lia.
Qed.

(** X10: [checkWin] can only hold on a board where one of the marks
    occupies at least three cells. *)
Theorem checkWin_needs_three (b : Board) :
  checkWin b = true -> 3 <= count X b \/ 3 <= count O b.
Proof.
  intro Hw. apply checkWin_lines in Hw.
  destruct Hw as [H | H]; [left | right]; apply line_count; exact H.
Qed.

(** X10 at work on the board whose row 0 is [X X X]. *)
Lemma checkWin_needs_three_example :
  3 <= count X boardXtop \/ 3 <= count O boardXtop.
Proof.
  apply (checkWin_needs_three boardXtop). reflexivity.
Defined.

Lemma length_filter_sum (A : Type) (f : A -> bool) (l : list A) :
  length (filter f l) = list_sum (map (fun x => if f x then 1 else 0) l).
Proof.
  induction l as [| a l IH]; simpl; [reflexivity |].
  destruct (f a); simpl; rewrite IH; reflexivity.
Qed.

Lemma count_partition (b : Board) :
  count Empty b + count X b + count O b = 9.
Proof.
  destruct b as [[a00 a01 a02] [a10 a11 a12] [a20 a21 a22]].
  unfold count, cells. simpl.
  pose proof (holds_partition a00). pose proof (holds_partition a01).
  pose proof (holds_partition a02). pose proof (holds_partition a10).
  pose proof (holds_partition a11). pose proof (holds_partition a12).
  pose proof (holds_partition a20). pose proof (holds_partition a21).
  pose proof (holds_partition a22). lia.
Qed.

Lemma length_emptyCells (b : Board) : length (emptyCells b) = count Empty b.
Proof. unfold emptyCells, count. apply length_filter_sum. Qed.

Lemma cells_NoDup : NoDup cells.
Proof.
  unfold cells. simpl.
  repeat (constructor; [simpl; intuition discriminate |]).
  constructor.
Qed.

(** X11: the list [emptyCells] that the random fallback draws from holds
    exactly the empty cells of the board, each once, and together with
    the marks it accounts for the nine cells. *)
Theorem emptyCells_exact (b : Board) :
  (forall row col,
     In (row, col) (emptyCells b) <-> onBoard row col /\ get b row col = Empty) /\
  NoDup (emptyCells b) /\
  length (emptyCells b) + count X b + count O b = 9.
Proof.
  split; [| split].
  - intros row col. apply in_emptyCells.
  - unfold emptyCells. apply NoDup_filter. exact cells_NoDup.
  - rewrite length_emptyCells. apply count_partition.
Qed.

(** X12: in every state a session can reach, [X] holds at most five cells
    and [O] at most four; a drawn game has exactly five [X] and four
    [O]. *)
Theorem marks_bounded (g : Game) :
  reachable g ->
  count X (board g) <= 5 /\ count O (board g) <= 4 /\
  (state g = Draw -> count X (board g) = 5 /\ count O (board g) = 4).
Proof.
  intro Hr.
  pose proof (reachable_inv g Hr) as Hc.
  apply reachable_outcome_inv in Hr. destruct Hr as [_ [_ Hst]].
  pose proof (count_partition (board g)) as Hp.
  assert (Hbal : count O (board g) <= count X (board g) <= count O (board g) + 1).
  { unfold session_inv in Hc. destruct (state g); try exact Hc.
    destruct Hc as [_ [[_ Hc] | [_ [Hc _]]]]; lia. }
  split; [lia |]. split; [lia |].
  intro Hd. rewrite Hd in Hst. destruct Hst as [Hf _].
  apply emptyCells_nil_full in Hf.
  pose proof (length_emptyCells (board g)) as Hl. rewrite Hf in Hl.
  simpl in Hl. lia.
Qed.

(** X12 at work on the example session. *)
Lemma marks_bounded_example :
  count X (board gameAICanWin) <= 5 /\ count O (board gameAICanWin) <= 4 /\
  (state gameAICanWin = Draw ->
   count X (board gameAICanWin) = 5 /\ count O (board gameAICanWin) = 4).
Proof.
  apply (marks_bounded gameAICanWin).
  apply reachable_frames. apply reach_new.
Defined.

(** X13: the random fallback can reach every empty cell: on a board
    without a completed line, where no placement of [O] completes one and
    the center is occupied, each empty cell is the AI's move for some
    random value. *)
Theorem fallback_reaches_every_empty_cell (b : Board) (row col : nat) :
  checkWin b = false ->
  (forall r c, ~ completes b r c) ->
  get b 1 1 <> Empty ->
  onBoard row col -> get b row col = Empty ->
  exists raw, makeAIMove raw b = set b row col O.
Proof.
  intros Hnw Hno Hc Hon He.
  assert (Hin : In (row, col) (emptyCells b)) by (apply in_emptyCells; auto).
  destruct (In_nth (emptyCells b) (row, col) (0, 0) Hin) as [k [Hk Hnth]].
  exists k. rewrite makeAIMove_rules.
  rewrite (find_none_no_completes b Hnw Hno).
  apply cell_eqb_neq in Hc. rewrite Hc.
  destruct (emptyCells b) as [| rc0 rest] eqn:E; [contradiction |].
  cbv zeta. unfold Intn. rewrite Nat.mod_small by exact Hk.
  rewrite Hnth. reflexivity.
Qed.

(** X13 at work: with [X] on the center only, the AI can end up on
    (2,2). *)
Lemma fallback_reaches_every_empty_cell_example :
  exists raw, makeAIMove raw boardXcenter = set boardXcenter 2 2 O.
Proof.
  apply (fallback_reaches_every_empty_cell boardXcenter 2 2).
  - reflexivity.
  - apply no_completes_by_test. reflexivity.
  - discriminate.
  - unfold onBoard, BoardSize. lia.
  - reflexivity.
Defined.

(** X14: as long as [O] holds fewer than two cells the scan for a win
    cannot succeed, so on a board without a completed line the AI takes
    the center whenever it is free. *)
Theorem early_ai_move_is_center (raw : nat) (b : Board) :
  checkWin b = false -> count O b < 2 -> get b 1 1 = Empty ->
  makeAIMove raw b = set b 1 1 O.
Proof.
  intros Hnw Hfew Hc. rewrite makeAIMove_rules.
  rewrite find_all_false.
  - apply cell_eqb_eq in Hc. rewrite Hc. reflexivity.
  - intros [r c] Hin. apply in_cells in Hin.
    destruct (scanHit b (r, c)) eqn:Hhit; [| reflexivity].
    exfalso. apply (scanHit_completes b r c Hnw Hin) in Hhit.
    destruct Hhit as [_ [He Hl]].
    apply line_count in Hl.
    destruct (count_place O b r c Hin He) as [Hcnt _]; [discriminate |].
    lia.
Qed.

(** X14 at work: the human opened on the corner (0,0). *)
Lemma early_ai_move_is_center_example :
  makeAIMove 3 (board gameOneMove) = set (board gameOneMove) 1 1 O.
Proof.
  apply (early_ai_move_is_center 3 (board gameOneMove)).
  - reflexivity.
  - simpl. unfold count, cells, holds. simpl. lia.
  - reflexivity.
Defined.

Lemma quot_inside_cell (i : nat) (d : Z) :
  i < BoardSize -> (0 <= d < CellSize)%Z ->
  Z.quot (Z.of_nat i * CellSize + d) CellSize = Z.of_nat i.
Proof.
  intros Hi Hd. rewrite CellSize_200 in *.
  index3 Hi; simpl Z.of_nat; Z.to_euclidean_division_equations; lia.
Qed.

(** X15: the square in which [Draw] shows a cell is the square whose
    clicks select it: on the human's turn a click at any pixel of the
    square of cell [(row, col)] places [X] there if the cell is empty and
    is ignored if it is occupied. *)
Theorem click_inside_cell (inp : Input) (g : Game) (row col : nat) (dx dy : Z) :
  state g = Playing -> currentTurn g = X -> justPressed inp = true ->
  onBoard row col ->
  (0 <= dx < CellSize)%Z -> (0 <= dy < CellSize)%Z ->
  cursorX inp = (cellX col + dx)%Z -> cursorY inp = (cellY row + dy)%Z ->
  (get (board g) row col = Empty ->
     board (Update inp g) = set (board g) row col X) /\
  (get (board g) row col <> Empty -> Update inp g = g).
Proof.
  intros Hs Ht Hp [Hr Hc] Hdx Hdy Hx Hy.
  unfold Update. rewrite Hs, Ht, Hp. simpl.
  rewrite Hx, Hy. unfold cellX, cellY.
  rewrite !quot_inside_cell by assumption.
  unfold humanMove. rewrite !Nat2Z.id, Ht.
  replace ((Z.of_nat row >=? 0)%Z && (Z.of_nat row <? Z.of_nat BoardSize)%Z
           && (Z.of_nat col >=? 0)%Z && (Z.of_nat col <? Z.of_nat BoardSize)%Z)
    with true
    by (symmetry; rewrite !andb_true_iff, !Z.geb_le, !Z.ltb_lt; lia).
  split.
  - intro He. apply cell_eqb_eq in He. rewrite He. simpl.
    destruct (checkWin _); [reflexivity |].
    destruct (checkDraw _); reflexivity.
  - intro Hne. apply cell_eqb_neq in Hne. rewrite Hne. reflexivity.
Qed.

(** X15 at work: the last pixel of the square of cell (0,2), and a pixel
    of the occupied center. *)
Lemma click_inside_cell_example :
  board (Update (clickAt 599 199) gameTwoMoves) = set (board gameTwoMoves) 0 2 X /\
  Update (clickAt 200 399) gameTwoMoves = gameTwoMoves.
Proof.
  split.
  - apply (click_inside_cell (clickAt 599 199) gameTwoMoves 0 2 199 199);
      try reflexivity; try (unfold onBoard, BoardSize; lia);
      rewrite CellSize_200; lia.
  - apply (click_inside_cell (clickAt 200 399) gameTwoMoves 1 1 0 199);
      try reflexivity; try (unfold onBoard, BoardSize; lia);
      try (rewrite CellSize_200; lia).
    discriminate.
Defined.

(** X16: a frame of a game that is on either leaves the board alone or
    fills exactly one empty cell with [X] or [O]; the number of empty
    cells then drops by one. *)
Theorem frame_fills_one_cell (inp : Input) (g : Game) :
  state g = Playing ->
  board (Update inp g) = board g \/
  (exists row col v,
     onBoard row col /\ get (board g) row col = Empty /\ (v = X \/ v = O) /\
     board (Update inp g) = set (board g) row col v) /\
  length (emptyCells (board (Update inp g))) + 1
  = length (emptyCells (board g)).
Proof.
  intro Hs.
  assert (Hfill : forall r c v b',
            onBoard r c -> get (board g) r c = Empty -> v = X \/ v = O ->
            b' = set (board g) r c v ->
            (exists row col v0,
               onBoard row col /\ get (board g) row col = Empty /\
               (v0 = X \/ v0 = O) /\ b' = set (board g) row col v0) /\
            length (emptyCells b') + 1 = length (emptyCells (board g))).
  { intros r c v b' Hon He Hv ->. split; [exists r, c, v; auto |].
    rewrite !length_emptyCells.
    pose proof (count_set Empty v (board g) r c Hon) as Hc.
    rewrite He in Hc. unfold holds in Hc.
    destruct Hv as [-> | ->]; simpl in Hc; lia. }
  unfold Update. rewrite Hs. simpl.
  destruct (cell_eqb (currentTurn g) X) eqn:Ht.
  - apply cell_eqb_eq in Ht.
    destruct (justPressed inp); [| left; reflexivity].
    destruct (humanMove_cases (Z.quot (cursorY inp) CellSize)
                              (Z.quot (cursorX inp) CellSize) g)
      as [-> | [Hrc [He Hm]]]; [left; reflexivity |].
    right. cbv zeta in Hm. rewrite Ht in Hm.
    apply (Hfill _ _ X _ Hrc He (or_introl eq_refl)).
    destruct Hm as [[_ ->] | [[_ [_ ->]] | [_ [_ ->]]]]; reflexivity.
  - destruct (aiTurn_cases (rngRaw inp) g) as [[_ ->] | [_ Hm]];
      [left; reflexivity |].
    cbv zeta in Hm.
    destruct (checkDraw (board g)) eqn:Hfull.
    + left. rewrite makeAIMove_full in Hm by exact Hfull.
      destruct Hm as [[_ ->] | [[_ [_ ->]] | [_ [_ ->]]]]; reflexivity.
    + right.
      destruct (makeAIMove_places (rngRaw inp) (board g) Hfull)
        as [r [c [Hin Hmv]]].
      apply in_emptyCells in Hin. destruct Hin as [Hrc He].
      apply (Hfill r c O _ Hrc He (or_intror eq_refl)).
      destruct Hm as [[_ ->] | [[_ [_ ->]] | [_ [_ ->]]]]; simpl; exact Hmv.
Qed.

(** X16 at work on the human's click on (0,2). *)
Lemma frame_fills_one_cell_example :
  board (Update (clickAt 450 50) gameTwoMoves) = board gameTwoMoves \/
  (exists row col v,
     onBoard row col /\ get (board gameTwoMoves) row col = Empty /\
     (v = X \/ v = O) /\
     board (Update (clickAt 450 50) gameTwoMoves)
     = set (board gameTwoMoves) row col v) /\
  length (emptyCells (board (Update (clickAt 450 50) gameTwoMoves))) + 1
  = length (emptyCells (board gameTwoMoves)).
Proof.
  apply (frame_fills_one_cell (clickAt 450 50) gameTwoMoves). reflexivity.
Defined.
